(** * lever-js: the request executor built by [createEndpoint]

    A shallow embedding of [createEndpoint] as it is written in
    [src/index.ts], in the compiled [dist/index.js], and in the second
    compiled build that the repository carries, together with the
    properties of the executor that the specification states.

    Strings.  A JavaScript string is a sequence of code units; here a
    string is a Rocq [string] and every [ascii] of it stands for one code
    unit in the range 0..255.  On that range [encodeURIComponent], [btoa]
    and the [URLSearchParams] serializer are total (no lone surrogate, no
    code unit above 255), and a code unit of 128 or more is written as
    two UTF-8 bytes by the two encoders.

    Numbers.  A JavaScript number is modelled where it is used (query
    values, JSON values, the HTTP status) as an integer [Z], printed in
    decimal.  This is what [String] and [JSON.stringify] write for the
    safe integers (at most 2^53 - 1 in absolute value); the properties of
    what is written for a number of a query or of a body are stated for
    those.

    Objects.  A property of the payload or of the options object is
    [None] when the object has no such property, and [Some] of its value
    otherwise.  An object that has a property whose value is [undefined]
    ([{ headers: undefined }], [{ params: undefined }]) is not among the
    values of the model. *)

From Stdlib Require Import ZArith NArith Ascii String List Bool Lia DecimalString.
From Stdlib Require Import DecimalPos DecimalZ.
From stdpp Require Import base option list gmap strings fin_maps.

Set Warnings "-register-all".

Local Open Scope string_scope.
Local Open Scope N_scope.

(** String concatenation unfolds on a constructor, as list append does. *)
Arguments String.append !s1 s2 : simpl nomatch.

(** ** Platform functions

    The functions of the JavaScript platform that [createEndpoint] calls,
    written after ECMAScript (String.prototype.replace, JSON.stringify,
    encodeURIComponent, String) and the WHATWG standards (btoa, the
    application/x-www-form-urlencoded serializer of URLSearchParams). *)

Module Js.

Definition code (c : ascii) : N := N_of_ascii c.

Fixpoint in_string (c : ascii) (s : string) : bool :=
  match s with
  | EmptyString => false
  | String d s' => Ascii.eqb c d || in_string c s'
  end.

Definition is_digit (c : ascii) : bool := (48 <=? code c) && (code c <=? 57).
Definition is_upper (c : ascii) : bool := (65 <=? code c) && (code c <=? 90).
Definition is_lower (c : ascii) : bool := (97 <=? code c) && (code c <=? 122).
Definition is_alnum (c : ascii) : bool := is_digit c || is_upper c || is_lower c.

Definition nth_char (n : N) (s : string) : ascii :=
  match String.get (N.to_nat n) s with
  | Some c => c
  | None => "0"%char
  end.

Definition hex_upper (d : N) : ascii := nth_char d "0123456789ABCDEF".
Definition hex_lower (d : N) : ascii := nth_char d "0123456789abcdef".

(** [%XX] for one byte, upper-case hexadecimal. *)
Definition pct (b : N) : string :=
  String "%" (String (hex_upper (b / 16)) (String (hex_upper (b mod 16)) "")).

(** The UTF-8 bytes of one code unit below 256. *)
Definition utf8 (c : ascii) : list N :=
  if code c <? 128 then [code c] else [192 + code c / 64; 128 + code c mod 64].

Fixpoint concat_str (l : list string) : string :=
  match l with
  | [] => ""
  | s :: l' => s +:+ concat_str l'
  end.

(** *** encodeURIComponent *)

Definition uri_unreserved (c : ascii) : bool :=
  is_alnum c || in_string c "-_.!~*'()".

Definition encode_unit (c : ascii) : string :=
  if uri_unreserved c then String c "" else concat_str (map pct (utf8 c)).

Fixpoint encodeURIComponent (s : string) : string :=
  match s with
  | EmptyString => ""
  | String c s' => encode_unit c +:+ encodeURIComponent s'
  end.

(** *** The application/x-www-form-urlencoded byte serializer *)

Definition form_unreserved (c : ascii) : bool :=
  is_alnum c || in_string c "*-._".

Definition form_unit (c : ascii) : string :=
  if Ascii.eqb c " " then "+"
  else if form_unreserved c then String c ""
  else concat_str (map pct (utf8 c)).

Fixpoint form_encode (s : string) : string :=
  match s with
  | EmptyString => ""
  | String c s' => form_unit c +:+ form_encode s'
  end.

Fixpoint join (sep : string) (l : list string) : string :=
  match l with
  | [] => ""
  | [s] => s
  | s :: l' => s +:+ sep +:+ join sep l'
  end.

(** [new URLSearchParams(pairs).toString()] *)
Definition form_pair (kv : string * string) : string :=
  form_encode kv.1 +:+ "=" +:+ form_encode kv.2.

Definition URLSearchParams_toString (pairs : list (string * string)) : string :=
  join "&" (map form_pair pairs).

(** *** String.prototype.replace with a string pattern *)

Fixpoint drop_str (n : nat) (s : string) : string :=
  match n, s with
  | O, _ => s
  | S n', String _ s' => drop_str n' s'
  | S _, EmptyString => ""
  end.

(** The text before and after the first occurrence of [pat] in [s]. *)
Fixpoint split_at (pat s : string) : option (string * string) :=
  if String.prefix pat s then Some ("", drop_str (String.length pat) s)
  else match s with
       | EmptyString => None
       | String c s' =>
           match split_at pat s' with
           | Some (b, a) => Some (String c b, a)
           | None => None
           end
       end.

(** GetSubstitution for a string pattern: there are no captures, so only
    [$$], [$&], [$`] and [$'] are special in the replacement text. *)
Fixpoint GetSubstitution (matched before after templ : string) : string :=
  match templ with
  | EmptyString => ""
  | String c t =>
      if Ascii.eqb c "$" then
        match t with
        | EmptyString => String c ""
        | String d t' =>
            if Ascii.eqb d "$" then String "$" (GetSubstitution matched before after t')
            else if Ascii.eqb d "&" then matched +:+ GetSubstitution matched before after t'
            else if Ascii.eqb d "`" then before +:+ GetSubstitution matched before after t'
            else if Ascii.eqb d "'" then after +:+ GetSubstitution matched before after t'
            else String c (GetSubstitution matched before after t)
        end
      else String c (GetSubstitution matched before after t)
  end.

Definition replace (s pat rep : string) : string :=
  match split_at pat s with
  | None => s
  | Some (b, a) => b +:+ GetSubstitution pat b a rep +:+ a
  end.

(** *** btoa: base64 of the code units taken as bytes

    [btoa] throws on a code unit above 255; the strings here have
    none, and on them it is the function below. *)

Definition b64 (n : N) : ascii :=
  nth_char n "ABCDEFGHIJKLMNOPQRSTUVWXYZabcdefghijklmnopqrstuvwxyz0123456789+/".

Definition str4 (a b c d : ascii) (rest : string) : string :=
  String a (String b (String c (String d rest))).

Fixpoint btoa (s : string) : string :=
  match s with
  | EmptyString => ""
  | String x EmptyString =>
      str4 (b64 (code x / 4)) (b64 (code x mod 4 * 16)) "=" "=" ""
  | String x (String y EmptyString) =>
      str4 (b64 (code x / 4)) (b64 (code x mod 4 * 16 + code y / 16))
           (b64 (code y mod 16 * 4)) "=" ""
  | String x (String y (String z r)) =>
      str4 (b64 (code x / 4)) (b64 (code x mod 4 * 16 + code y / 16))
           (b64 (code y mod 16 * 4 + code z / 64)) (b64 (code z mod 64))
           (btoa r)
  end.

(** *** atob: the inverse reading, used to state what a header decodes to *)

Definition b64_index (c : ascii) : option N :=
  if is_upper c then Some (code c - 65)
  else if is_lower c then Some (code c - 71)
  else if is_digit c then Some (code c + 4)
  else if Ascii.eqb c "+" then Some 62
  else if Ascii.eqb c "/" then Some 63
  else None.

Definition byte (n : N) : ascii := ascii_of_N n.

Fixpoint atob (s : string) : option string :=
  match s with
  | EmptyString => Some ""
  | String a (String b (String c (String d r))) =>
      match b64_index a, b64_index b with
      | Some p, Some q =>
          if Ascii.eqb c "=" then
            if Ascii.eqb d "=" then
              match r with
              | EmptyString => Some (String (byte (p * 4 + q / 16)) "")
              | _ => None
              end
            else None
          else
            match b64_index c with
            | Some u =>
                if Ascii.eqb d "=" then
                  match r with
                  | EmptyString =>
                      Some (String (byte (p * 4 + q / 16))
                             (String (byte (q mod 16 * 16 + u / 4)) ""))
                  | _ => None
                  end
                else
                  match b64_index d, atob r with
                  | Some v, Some t =>
                      Some (String (byte (p * 4 + q / 16))
                             (String (byte (q mod 16 * 16 + u / 4))
                                (String (byte (u mod 4 * 64 + v)) t)))
                  | _, _ => None
                  end
            | None => None
            end
      | _, _ => None
      end
  | _ => None
  end.

(** *** String(v) on the primitive values a query mapping holds *)

Inductive prim : Type :=
  | PUndefined
  | PNull
  | PBool (b : bool)
  | PNum (n : Z)
  | PStr (s : string).

(** [String(n)] and [JSON.stringify(n)] for an integer [n]: its decimal
    digits, with [-] before them for a negative one.  This is the text
    JavaScript writes for the safe integers. *)
Definition Z_to_string (n : Z) : string := NilZero.string_of_int (Z.to_int n).

Definition ToString (v : prim) : string :=
  match v with
  | PUndefined => "undefined"
  | PNull => "null"
  | PBool true => "true"
  | PBool false => "false"
  | PNum n => Z_to_string n
  | PStr s => s
  end.

(** [v != null]: false exactly for [null] and [undefined]. *)
Definition not_nullish (v : prim) : bool :=
  match v with
  | PUndefined | PNull => false
  | _ => true
  end.

(** *** JSON.stringify *)

Inductive json : Type :=
  | JNull
  | JBool (b : bool)
  | JNum (n : Z)
  | JStr (s : string)
  | JArr (items : list json)
  | JObj (members : list (string * json)).

(** The double quote and the backslash, by their code. *)
Definition dquote : ascii := "034"%char.
Definition bslash : ascii := "092"%char.

Definition esc (c : ascii) : string := String bslash (String c "").

Definition quote_unit (c : ascii) : string :=
  if Ascii.eqb c dquote then esc dquote
  else if Ascii.eqb c bslash then esc bslash
  else if code c =? 8 then esc "b"
  else if code c =? 12 then esc "f"
  else if code c =? 10 then esc "n"
  else if code c =? 13 then esc "r"
  else if code c =? 9 then esc "t"
  else if code c <? 32 then
    esc "u" +:+ "00" +:+
    String (hex_lower (code c / 16)) (String (hex_lower (code c mod 16)) "")
  else String c "".

Fixpoint quote_body (s : string) : string :=
  match s with
  | EmptyString => ""
  | String c s' => quote_unit c +:+ quote_body s'
  end.

Definition QuoteJSONString (s : string) : string :=
  String dquote (quote_body s +:+ String dquote "").

Fixpoint JSON_stringify (j : json) : string :=
  match j with
  | JNull => "null"
  | JBool true => "true"
  | JBool false => "false"
  | JNum n => Z_to_string n
  | JStr s => QuoteJSONString s
  | JArr items => "[" +:+ join "," (map JSON_stringify items) +:+ "]"
  | JObj members =>
      "{" +:+ join ","
                (map (fun kv => match kv with
                                | (k, v) => QuoteJSONString k +:+ ":" +:+ JSON_stringify v
                                end) members) +:+ "}"
  end.

(** A literal written with single quotes where the text has double quotes. *)
Fixpoint dq (s : string) : string :=
  match s with
  | EmptyString => ""
  | String c s' => String (if Ascii.eqb c "'" then dquote else c) (dq s')
  end.

End Js.

(** ** Data model *)

Inductive HttpMethod : Type := GET | POST | PUT | DELETE.

#[global] Instance HttpMethod_eq_dec : EqDecision HttpMethod.
Proof. solve_decision. Defined.

Definition method_name (m : HttpMethod) : string :=
  match m with
  | GET => "GET"
  | POST => "POST"
  | PUT => "PUT"
  | DELETE => "DELETE"
  end.

(** [Omit<Endpoint<P, Q, B, R>, 'call'>]: the descriptor given to
    [createEndpoint]. *)
Record Endpoint : Type := { method : HttpMethod; path : string }.

(** The options object of [fetch].  A field is [None] when the object has
    no such property, and [Some] of the value when it has one; an object
    with a property whose value is [undefined] is not represented.
    [ri_other] holds every other option (signal, cache, credentials, ...)
    by name.  The declared type of [init] leaves out
    [body] and [method], but types are erased and the object is spread as
    it is, so both fields are kept. *)
Record RequestInit : Type := {
  ri_method : option string;
  ri_headers : option (gmap string string);
  ri_body : option string;
  ri_other : gmap string string;
}.

(** [{}] *)
Definition no_init : RequestInit :=
  {| ri_method := None; ri_headers := None; ri_body := None; ri_other := ∅ |}.

Definition override {A} (over base : option A) : option A :=
  match over with
  | Some x => Some x
  | None => base
  end.

(** [{ ...a, ...b }]: a property of [b] replaces the one of [a]. *)
Definition spread (a b : RequestInit) : RequestInit :=
  {| ri_method := override (ri_method b) (ri_method a);
     ri_headers := override (ri_headers b) (ri_headers a);
     ri_body := override (ri_body b) (ri_body a);
     ri_other := ri_other b ∪ ri_other a |}.

(** The second argument of [call]: each of the three properties may be
    missing ([None]).  [params] and [query] are objects read through
    [Object.entries], kept as their entries in enumeration order.
    [src/index.ts] reads the three by destructuring, so that a missing
    property and one whose value is [undefined] are the same to it; the
    second build asks ['params' in data], and of the two it is the
    missing property that [None] stands for. *)
Record Payload : Type := {
  params : option (list (string * string));
  query : option (list (string * Js.prim));
  body : option Js.json;
}.

(** What [fetch] resolves to.  [res_json] is the outcome of [res.json()]:
    the parsed body, or [None] when the body does not parse. *)
Record Response : Type := {
  status : Z;
  statusText : string;
  res_json : option Js.json;
}.

(** [res.ok] *)
Definition ok (res : Response) : bool :=
  (200 <=? status res)%Z && (status res <=? 299)%Z.

Inductive Error : Type :=
  | JsError (message : string)     (* [new Error(message)] thrown by [call] *)
  | TypeError (message : string)   (* thrown by [Object.entries] *)
  | SyntaxError                    (* [res.json()] rejected *)
  | FetchError (reason : string).  (* [fetch] rejected *)

(** One call of [fetch]: the URL and the options object. *)
Record FetchCall : Type := { fc_url : string; fc_init : RequestInit }.

(** ** The executor's effects

    A call runs in an environment that holds the [config] object captured
    by the closure, the state of the network, and the calls of [fetch]
    made so far.  The network is any state machine [fetch]. *)

Record Env (W : Type) : Type := {
  config : Endpoint;
  net : W;
  sent : list FetchCall;
}.
Arguments config {W} _.
Arguments net {W} _.
Arguments sent {W} _.

Definition Fetch (W : Type) : Type :=
  W → string → RequestInit → W * (Error + Response).

Definition M (W A : Type) : Type := Env W → Env W * (Error + A).

#[global] Instance M_ret {W} : MRet (M W) := λ A x s, (s, inr x).

#[global] Instance M_bind {W} : MBind (M W) := λ A B f m s,
  match m s with
  | (s', inr x) => f x s'
  | (s', inl e) => (s', inl e)
  end.

Definition throw {W A} (e : Error) : M W A := λ s, (s, inl e).

(** [config.path] and [config.method], read from the captured object. *)
Definition config_path {W} : M W string := λ s, (s, inr (path (config s))).
Definition config_method {W} : M W HttpMethod := λ s, (s, inr (method (config s))).

Definition do_fetch {W} (fetch : Fetch W) (url : string) (init : RequestInit)
  : M W Response := λ s,
  let '(w, r) := fetch (net s) url init in
  ({| config := config s; net := w;
      sent := sent s ++ [{| fc_url := url; fc_init := init |}] |}, r).

(** [Object.entries(o)]: a TypeError when [o] is [undefined]. *)
Definition Object_entries {W A} (o : option (list (string * A)))
  : M W (list (string * A)) :=
  match o with
  | Some entries => mret entries
  | None => throw (TypeError "Cannot convert undefined or null to object")
  end.

(** [await res.json()] *)
Definition await_json {W} (res : Response) : M W Js.json :=
  match res_json res with
  | Some v => mret v
  | None => throw SyntaxError
  end.

(** A string is truthy when it is not empty. *)
Definition truthy (s : string) : bool :=
  match s with
  | EmptyString => false
  | _ => true
  end.

(** Base URL *)
Definition ROOT : string := "https://api.lever.co/v1".

(** The steps that the three builds share word for word. *)

(** [url = url.replace(`:${key}`, encodeURIComponent(val))] over the entries. *)
Definition interpolate (template : string) (entries : list (string * string))
  : string :=
  fold_left
    (λ url kv, Js.replace url (":" +:+ kv.1) (Js.encodeURIComponent kv.2))
    entries template.

(** [new URLSearchParams(entries.filter(([, v]) => v != null)
                                .map(([k, v]) => [k, String(v)])).toString()] *)
Definition query_string (entries : list (string * Js.prim)) : string :=
  Js.URLSearchParams_toString
    (map (λ kv, (kv.1, Js.ToString kv.2))
       (List.filter (λ kv, Js.not_nullish kv.2) entries)).

(** [`${ROOT}${url}${qs ? '?' + qs : ''}`] *)
Definition full_url (url qs : string) : string :=
  ROOT +:+ url +:+ (if truthy qs then "?" +:+ qs else "").

Definition default_headers (m : HttpMethod) (apiKey : string)
  : gmap string string :=
  let defaultHeaders : gmap string string :=
    {[ "Authorization" := "Basic " +:+ Js.btoa (apiKey +:+ ":") ]} in
  if decide (m ≠ GET)
  then <["Content-Type" := "application/json"]> defaultHeaders
  else defaultHeaders.

(** [{ ...defaultHeaders, ...(init.headers ?? {}) }] *)
Definition merged_headers (m : HttpMethod) (apiKey : string) (init : RequestInit)
  : gmap string string :=
  default ∅ (ri_headers init) ∪ default_headers m apiKey.

(** ** [src/index.ts] *)

Module Ts.

Definition call {W} (fetch : Fetch W) (apiKey : string) (data : Payload)
    (init : RequestInit) : M W Js.json :=
  (* 1. interpolate path params *)
  template ← config_path;
  entries ← Object_entries (params data);
  let url := interpolate template entries in
  (* 2. build query string *)
  qentries ← Object_entries (query data);
  let qs := query_string qentries in
  let fullUrl := full_url url qs in
  (* 3. prepare headers (Basic auth + JSON if needed) *)
  m ← config_method;
  let mergedHeaders := merged_headers m apiKey init in
  (* 4. perform fetch *)
  res ← do_fetch fetch fullUrl
          (spread
             (spread
                {| ri_method := Some (method_name m);
                   ri_headers := Some mergedHeaders;
                   ri_body := None; ri_other := ∅ |}
                (if decide (m = GET) then no_init
                 else {| ri_method := None; ri_headers := None;
                         ri_body := Js.JSON_stringify <$> body data;
                         ri_other := ∅ |}))
             init);
  if negb (ok res)
  then throw (JsError ("HTTP " +:+ Js.Z_to_string (status res) +:+ ": "
                         +:+ statusText res))
  else await_json res.

(** [createEndpoint(config)] applied to the arguments of a call and run
    from the network state [w]: the environment after the call and its
    result. *)
Definition createEndpoint {W} (fetch : Fetch W) (cfg : Endpoint)
    (apiKey : string) (data : Payload) (init : RequestInit) (w : W)
  : Env W * (Error + Js.json) :=
  call fetch apiKey data init {| config := cfg; net := w; sent := [] |}.

End Ts.

(** ** [dist/index.js], written out from the compiled text *)

Module Dist.

Definition call {W} (fetch : Fetch W) (apiKey : string) (data : Payload)
    (init : RequestInit) : M W Js.json :=
  template ← config_path;
  entries ← Object_entries (params data);
  let url :=
    fold_left
      (λ url kv, Js.replace url (":" +:+ kv.1) (Js.encodeURIComponent kv.2))
      entries template in
  qentries ← Object_entries (query data);
  let qs :=
    Js.URLSearchParams_toString
      (map (λ kv, (kv.1, Js.ToString kv.2))
         (List.filter (λ kv, Js.not_nullish kv.2) qentries)) in
  let fullUrl := ROOT +:+ url +:+ (if truthy qs then "?" +:+ qs else "") in
  m ← config_method;
  let defaultHeaders : gmap string string :=
    {[ "Authorization" := "Basic " +:+ Js.btoa (apiKey +:+ ":") ]} in
  let defaultHeaders :=
    if decide (m ≠ GET)
    then <["Content-Type" := "application/json"]> defaultHeaders
    else defaultHeaders in
  let mergedHeaders := default ∅ (ri_headers init) ∪ defaultHeaders in
  res ← do_fetch fetch fullUrl
          (spread
             (spread
                {| ri_method := Some (method_name m);
                   ri_headers := Some mergedHeaders;
                   ri_body := None; ri_other := ∅ |}
                (if decide (m = GET) then no_init
                 else {| ri_method := None; ri_headers := None;
                         ri_body := Js.JSON_stringify <$> body data;
                         ri_other := ∅ |}))
             init);
  if negb (ok res)
  then throw (JsError ("HTTP " +:+ Js.Z_to_string (status res) +:+ ": "
                         +:+ statusText res))
  else await_json res.

Definition createEndpoint {W} (fetch : Fetch W) (cfg : Endpoint)
    (apiKey : string) (data : Payload) (init : RequestInit) (w : W)
  : Env W * (Error + Js.json) :=
  call fetch apiKey data init {| config := cfg; net := w; sent := [] |}.

End Dist.

(** ** The second compiled build

    It reads the payload through [in] tests: a missing [params] is [{}], a
    missing or nullish [query] is [[]], a missing [body] adds no [body]
    property, and the error message names the method and the URL. *)

Module Build2.

Definition call {W} (fetch : Fetch W) (apiKey : string) (data : Payload)
    (init : RequestInit) : M W Js.json :=
  template ← config_path;
  let url := interpolate template (default [] (params data)) in
  let qs := query_string (default [] (query data)) in
  let fullUrl := full_url url qs in
  m ← config_method;
  let mergedHeaders := merged_headers m apiKey init in
  res ← do_fetch fetch fullUrl
          (spread
             (spread
                {| ri_method := Some (method_name m);
                   ri_headers := Some mergedHeaders;
                   ri_body := None; ri_other := ∅ |}
                (if decide (m = GET) then no_init
                 else match body data with
                      | None => no_init
                      | Some b =>
                          {| ri_method := None; ri_headers := None;
                             ri_body := Some (Js.JSON_stringify b);
                             ri_other := ∅ |}
                      end))
             init);
  if negb (ok res)
  then throw (JsError (method_name m +:+ " " +:+ fullUrl +:+ " HTTP "
                         +:+ Js.Z_to_string (status res) +:+ ": "
                         +:+ statusText res))
  else await_json res.

Definition createEndpoint {W} (fetch : Fetch W) (cfg : Endpoint)
    (apiKey : string) (data : Payload) (init : RequestInit) (w : W)
  : Env W * (Error + Js.json) :=
  call fetch apiKey data init {| config := cfg; net := w; sent := [] |}.

End Build2.

(** ** The endpoints of [src/index.ts] that the properties name *)

Definition addOpportunityTags : Endpoint :=
  {| method := POST; path := "/opportunities/:opportunity/addTags" |}.

Definition retrieveOpportunity : Endpoint :=
  {| method := GET; path := "/opportunities/:opportunity" |}.

Definition retrieveApplication : Endpoint :=
  {| method := GET;
     path := "/opportunities/:opportunity/applications/:application" |}.

(** ** A network to run the executor on: every request is answered by the
    same response, and there is no state. *)

Definition answer (res : Response) : Fetch unit := λ w _ _, (w, inr res).

Definition res_ok (v : Js.json) : Response :=
  {| status := 200; statusText := "OK"; res_json := Some v |}.

Definition res_404 : Response :=
  {| status := 404; statusText := "Not Found"; res_json := None |}.

(** ** Vocabulary of the properties *)

(** The call of [fetch] that a run made, when it made exactly one. *)
Definition the_request {W A} (r : Env W * A) : option FetchCall :=
  match sent r.1 with
  | [c] => Some c
  | _ => None
  end.

Definition req_headers (c : FetchCall) : gmap string string :=
  default ∅ (ri_headers (fc_init c)).

Definition req_body (c : FetchCall) : option string := ri_body (fc_init c).

(** [pat] occurs in [s]. *)
Definition occurs (pat s : string) : bool :=
  match Js.split_at pat s with
  | Some _ => true
  | None => false
  end.

Definition entries_TypeError : Error :=
  TypeError "Cannot convert undefined or null to object".

Definition tags_ab : Js.json :=
  Js.JObj [("tags", Js.JArr [Js.JStr "a"; Js.JStr "b"])].


(** The name-value pairs that [URLSearchParams] is built from. *)
Definition query_pairs (entries : list (string * Js.prim))
  : list (string * string) :=
  map (λ kv, (kv.1, Js.ToString kv.2))
    (List.filter (λ kv, Js.not_nullish kv.2) entries).


(** ** Path templates

    A template read as the text between its placeholders and the
    placeholders [:<name>], a name being the longest run of letters,
    digits and [_] after the colon. *)

Inductive piece : Type :=
  | Lit (text : string)
  | Hole (name : string).

Definition render_piece (p : piece) : string :=
  match p with
  | Lit s => s
  | Hole n => String ":" n
  end.

Definition render (ps : list piece) : string :=
  Js.concat_str (map render_piece ps).

Definition hole_name (p : piece) : option string :=
  match p with
  | Lit _ => None
  | Hole n => Some n
  end.

Definition holes (ps : list piece) : list string := omap hole_name ps.

Definition is_name_char (c : ascii) : bool :=
  Js.is_alnum c || Ascii.eqb c "_".

Fixpoint span_name (s : string) : string * string :=
  match s with
  | EmptyString => ("", "")
  | String c s' =>
      if is_name_char c
      then (String c (span_name s').1, (span_name s').2)
      else ("", s)
  end.

Definition lit_cons (c : ascii) (ps : list piece) : list piece :=
  match ps with
  | Lit l :: ps' => Lit (String c l) :: ps'
  | _ => Lit (String c "") :: ps
  end.

Definition hole_cons (ps : list piece) : list piece :=
  match ps with
  | Lit l :: ps' =>
      Hole (span_name l).1 ::
        match (span_name l).2 with
        | EmptyString => ps'
        | r => Lit r :: ps'
        end
  | _ => Hole "" :: ps
  end.

Fixpoint parse (template : string) : list piece :=
  match template with
  | EmptyString => []
  | String c s' =>
      if Ascii.eqb c ":" then hole_cons (parse s') else lit_cons c (parse s')
  end.

Definition placeholders (template : string) : list string :=
  holes (parse template).

Definition colon_free (s : string) : bool := negb (Js.in_string ":" s).

Definition dollar_free (s : string) : bool := negb (Js.in_string "$" s).

(** Neither name begins with the other. *)
Definition unrelated (n m : string) : bool :=
  negb (String.prefix n m) && negb (String.prefix m n).

Fixpoint prefix_free (names : list string) : bool :=
  match names with
  | [] => true
  | n :: names' => forallb (unrelated n) names' && prefix_free names'
  end.

Definition piece_colon_free (p : piece) : bool :=
  match p with
  | Lit s => colon_free s
  | Hole n => colon_free n
  end.

Definition wf_pieces (ps : list piece) : bool :=
  forallb piece_colon_free ps && prefix_free (holes ps).

(** The templates on which one [replace] per name fills every
    placeholder: no placeholder name begins with another one (so no name
    comes twice). *)
Definition well_formed (template : string) : bool :=
  wf_pieces (parse template).

(** A key may meet a placeholder only under its own name. *)
Definition compatible (keys names : list string) : bool :=
  forallb (λ k, forallb (λ n, String.eqb n k || unrelated k n) names) keys.

Fixpoint assoc (k : string) (entries : list (string * string)) : option string :=
  match entries with
  | [] => None
  | (k', v) :: entries' => if String.eqb k' k then Some v else assoc k entries'
  end.

Definition fill_piece (entries : list (string * string)) (p : piece) : piece :=
  match p with
  | Lit s => Lit s
  | Hole n =>
      match assoc n entries with
      | Some v => Lit (Js.encodeURIComponent v)
      | None => Hole n
      end
  end.

(** The template with the value of every placeholder that has a param
    written in its place. *)
Definition fill (entries : list (string * string)) (ps : list piece)
  : list piece :=
  map (fill_piece entries) ps.

(** [names] without the first [k]. *)
Fixpoint remove_first (k : string) (names : list string) : list string :=
  match names with
  | [] => []
  | n :: names' => if String.eqb n k then names' else n :: remove_first k names'
  end.

(** One step of the loop on pieces: the first placeholder named [k]. *)
Fixpoint fill_first (k rep : string) (ps : list piece) : list piece :=
  match ps with
  | [] => []
  | Lit s :: ps' => Lit s :: fill_first k rep ps'
  | Hole n :: ps' =>
      if String.eqb n k then Lit rep :: ps' else Hole n :: fill_first k rep ps'
  end.

(** The last part of the interpolation property as the specification
    words it: whenever the keys of the params are the placeholders of the
    template, no placeholder is left in the result. *)
Definition tokens_all_replaced : Prop :=
  ∀ template entries,
    NoDup entries.*1 →
    (∀ n, n ∈ placeholders template ↔ n ∈ entries.*1) →
    placeholders (interpolate template entries) = [].

(** The path templates of [src/index.ts]. *)
Definition index_ts_paths : list string :=
  [ "/opportunities";
    "/opportunities/:opportunity";
    "/opportunities/:opportunity/addLinks";
    "/opportunities/:opportunity/addSources";
    "/opportunities/:opportunity/addTags";
    "/opportunities/:opportunity/applications";
    "/opportunities/:opportunity/applications/:application";
    "/opportunities/:opportunity/archived";
    "/opportunities/:opportunity/interview/:interview";
    "/opportunities/:opportunity/interviews";
    "/opportunities/:opportunity/interviews/:interview";
    "/opportunities/:opportunity/notes";
    "/opportunities/:opportunity/notes/:note";
    "/opportunities/:opportunity/removeLinks";
    "/opportunities/:opportunity/removeSources";
    "/opportunities/:opportunity/removeTags";
    "/opportunities/:opportunity/stage";
    "/opportunities/deleted";
    "/postings/:posting/apply";
    "/stages";
    "/stages/:stage";
    "/tags" ].

(** ** Reading a query string back

    The reading of a text written by [Js.URLSearchParams_toString]: the
    segments between [&], each cut at its first [=], with [+] read as a
    space and [%XX] as a byte, one or two bytes making a code unit. *)

Definition hex_value (c : ascii) : option N :=
  if Js.is_digit c then Some (Js.code c - 48)
  else if (65 <=? Js.code c) && (Js.code c <=? 70) then Some (Js.code c - 55)
  else if (97 <=? Js.code c) && (Js.code c <=? 102) then Some (Js.code c - 87)
  else None.

Fixpoint form_decode (s : string) : string :=
  match s with
  | EmptyString => ""
  | String c r =>
      if Ascii.eqb c "+" then String " " (form_decode r)
      else if Ascii.eqb c "%" then
        match r with
        | String h1 (String h2 r2) =>
            match hex_value h1, hex_value h2 with
            | Some a, Some b =>
                if a * 16 + b <? 128
                then String (Js.byte (a * 16 + b)) (form_decode r2)
                else
                  match r2 with
                  | String p (String h3 (String h4 r4)) =>
                      match Ascii.eqb p "%", hex_value h3, hex_value h4 with
                      | true, Some a', Some b' =>
                          String (Js.byte ((a * 16 + b - 192) * 64
                                           + (a' * 16 + b' - 128)))
                            (form_decode r4)
                      | _, _, _ => String c (form_decode r)
                      end
                  | _ => String c (form_decode r)
                  end
            | _, _ => String c (form_decode r)
            end
        | _ => String c (form_decode r)
        end
      else String c (form_decode r)
  end.

(** The segments of [s] between the separators [sep]. *)
Fixpoint split_on (sep : ascii) (s : string) : list string :=
  match s with
  | EmptyString => [""]
  | String c r =>
      if Ascii.eqb c sep then "" :: split_on sep r
      else match split_on sep r with
           | seg :: segs => String c seg :: segs
           | [] => [String c ""]
           end
  end.

Definition parse_pair (seg : string) : string * string :=
  match Js.split_at "=" seg with
  | Some (n, v) => (form_decode n, form_decode v)
  | None => (form_decode seg, "")
  end.

Definition parse_query (qs : string) : list (string * string) :=
  map parse_pair (List.filter truthy (split_on "&" qs)).

(** ** The endpoints that [src/index.ts] exports

    Each with the descriptor given to [createEndpoint] and the keys of
    the type declared for its [params]. *)

Definition listApplications : Endpoint :=
  {| method := GET; path := "/opportunities/:opportunity/applications" |}.

Definition applyToPosting : Endpoint :=
  {| method := POST; path := "/postings/:posting/apply" |}.

(** [export const createApplication = applyToPosting] *)
Definition createApplication : Endpoint := applyToPosting.

Definition index_ts_endpoints : list (string * Endpoint * list string) :=
  [ ("retrieveApplication", retrieveApplication, ["opportunity"; "application"]);
    ("listApplications", listApplications, ["opportunity"]);
    ("applyToPosting", applyToPosting, ["posting"]);
    ("createApplication", createApplication, ["posting"]);
    ("retrieveInterview",
     {| method := GET; path := "/opportunities/:opportunity/interview/:interview" |},
     ["opportunity"; "interview"]);
    ("listInterviews",
     {| method := GET; path := "/opportunities/:opportunity/interviews" |},
     ["opportunity"]);
    ("createInterview",
     {| method := POST; path := "/opportunities/:opportunity/interviews" |},
     ["opportunity"]);
    ("updateInterview",
     {| method := PUT; path := "/opportunities/:opportunity/interviews/:interview" |},
     ["opportunity"; "interview"]);
    ("deleteInterview",
     {| method := DELETE;
        path := "/opportunities/:opportunity/interviews/:interview" |},
     ["opportunity"; "interview"]);
    ("retrieveNote",
     {| method := GET; path := "/opportunities/:opportunity/notes/:note" |},
     ["opportunity"; "note"]);
    ("listNotes",
     {| method := GET; path := "/opportunities/:opportunity/notes" |},
     ["opportunity"]);
    ("createNote",
     {| method := POST; path := "/opportunities/:opportunity/notes" |},
     ["opportunity"]);
    ("updateNote",
     {| method := PUT; path := "/opportunities/:opportunity/notes/:note" |},
     ["opportunity"; "note"]);
    ("deleteNote",
     {| method := DELETE; path := "/opportunities/:opportunity/notes/:note" |},
     ["opportunity"; "note"]);
    ("retrieveOpportunity", retrieveOpportunity, ["opportunity"]);
    ("listOpportunities", {| method := GET; path := "/opportunities" |}, []);
    ("listDeletedOpportunities",
     {| method := GET; path := "/opportunities/deleted" |}, []);
    ("createOpportunity", {| method := POST; path := "/opportunities" |}, []);
    ("updateOpportunityStage",
     {| method := PUT; path := "/opportunities/:opportunity/stage" |},
     ["opportunity"]);
    ("updateOpportunityArchivedState",
     {| method := PUT; path := "/opportunities/:opportunity/archived" |},
     ["opportunity"]);
    ("addContactLinksByOpportunity",
     {| method := POST; path := "/opportunities/:opportunity/addLinks" |},
     ["opportunity"]);
    ("removeContactLinksByOpportunity",
     {| method := POST; path := "/opportunities/:opportunity/removeLinks" |},
     ["opportunity"]);
    ("addOpportunityTags", addOpportunityTags, ["opportunity"]);
    ("removeOpportunityTags",
     {| method := POST; path := "/opportunities/:opportunity/removeTags" |},
     ["opportunity"]);
    ("addOpportunitySources",
     {| method := POST; path := "/opportunities/:opportunity/addSources" |},
     ["opportunity"]);
    ("removeOpportunitySources",
     {| method := POST; path := "/opportunities/:opportunity/removeSources" |},
     ["opportunity"]);
    ("getStage", {| method := GET; path := "/stages/:stage" |}, ["stage"]);
    ("getStages", {| method := GET; path := "/stages" |}, []);
    ("getTags", {| method := GET; path := "/tags" |}, []) ].

(** The check made on each row of the table: the template is well
    formed and its placeholders are the declared keys, in the order of the
    declaration. *)
Definition row_ok (row : string * Endpoint * list string) : bool :=
  well_formed (path row.1.2)
  && bool_decide (placeholders (path row.1.2) = row.2).

(** The number of [c] in [s]. *)
Fixpoint count_char (c : ascii) (s : string) : nat :=
  match s with
  | EmptyString => 0%nat
  | String d s' => ((if Ascii.eqb c d then 1 else 0) + count_char c s')%nat
  end.

(** A network whose state no request changes. *)
Definition stable {W} (fetch : Fetch W) : Prop :=
  ∀ w url init, (fetch w url init).1 = w.

(** ** The numbers of the model

    [String(n)] and [JSON.stringify(n)] write a number in decimal digits
    exactly when it is a safe integer ([Number.isSafeInteger]); above
    that a double prints with rounded digits or an exponent.  The
    properties that state what is written for a number are stated for the
    safe integers. *)

Definition MAX_SAFE_INTEGER : Z := 9007199254740991.

Definition safe_integer (n : Z) : bool := (Z.abs n <=? MAX_SAFE_INTEGER)%Z.


Fixpoint json_safe (j : Js.json) : bool :=
  match j with
  | Js.JNum n => safe_integer n
  | Js.JArr items => forallb json_safe items
  | Js.JObj members =>
      forallb (λ kv, match kv with (_, v) => json_safe v end) members
  | _ => true
  end.

(** ** Reading a JSON text back

    A reader of the texts that [JSON.stringify] writes (no white space):
    the literals, decimal integers, strings with the escapes of
    [QuoteJSONString], arrays and objects. *)



(** The character that a backslash and [e] stand for. *)
Definition unescape (e : ascii) : option ascii :=
  if Ascii.eqb e Js.dquote then Some Js.dquote
  else if Ascii.eqb e Js.bslash then Some Js.bslash
  else if Ascii.eqb e "/" then Some "/"%char
  else if Ascii.eqb e "b" then Some (Js.byte 8)
  else if Ascii.eqb e "f" then Some (Js.byte 12)
  else if Ascii.eqb e "n" then Some (Js.byte 10)
  else if Ascii.eqb e "r" then Some (Js.byte 13)
  else if Ascii.eqb e "t" then Some (Js.byte 9)
  else None.

Definition hex4 (a b c d : ascii) : option N :=
  match hex_value a, hex_value b, hex_value c, hex_value d with
  | Some x, Some y, Some z, Some w => Some (((x * 16 + y) * 16 + z) * 16 + w)
  | _, _, _, _ => None
  end.

Definition cons_char (c : ascii) (r : option (string * string))
  : option (string * string) :=
  match r with
  | Some (s, rest) => Some (String c s, rest)
  | None => None
  end.

(** The characters of a string up to its closing quote, and the text
    after the quote.  As in [JSON.parse], a control character is read
    only from its escape. *)
Fixpoint read_chars (s : string) : option (string * string) :=
  match s with
  | EmptyString => None
  | String c r =>
      if Ascii.eqb c Js.dquote then Some ("", r)
      else if Ascii.eqb c Js.bslash then
        match r with
        | EmptyString => None
        | String e r1 =>
            if Ascii.eqb e "u" then
              match r1 with
              | String h1 (String h2 (String h3 (String h4 r2))) =>
                  match hex4 h1 h2 h3 h4 with
                  | Some n =>
                      if n <? 256 then cons_char (Js.byte n) (read_chars r2)
                      else None
                  | None => None
                  end
              | _ => None
              end
            else
              match unescape e with
              | Some ch => cons_char ch (read_chars r1)
              | None => None
              end
        end
      else if Js.code c <? 32 then None
      else cons_char c (read_chars r)
  end.







(** Induction on a JSON value, with the property known of the items of
    an array and of the values of an object. *)
Section json_induction.
Variable P : Js.json → Prop.
Hypothesis Hnull : P Js.JNull.
Hypothesis Hbool : ∀ b, P (Js.JBool b).
Hypothesis Hnum : ∀ n, P (Js.JNum n).
Hypothesis Hstr : ∀ s, P (Js.JStr s).
Hypothesis Harr : ∀ items, Forall P items → P (Js.JArr items).
Hypothesis Hobj :
  ∀ members, Forall (λ kv, P kv.2) members → P (Js.JObj members).

End json_induction.





(** ** Proof steps used throughout *)

(** Unfold a run of [call] down to the call of [fetch]. *)
Ltac run_call :=
  cbv [Ts.createEndpoint Ts.call Dist.createEndpoint Dist.call
       Build2.createEndpoint Build2.call
       mbind M_bind mret M_ret throw config_path config_method do_fetch
       Object_entries await_json];
  cbn [config net sent params query body].

(** Linear arithmetic with division and remainder by constants. *)
Ltac div_mod_lia := zify; Z.to_euclidean_division_equations; lia.


Example enc_space : Js.encodeURIComponent "abc 123" = "abc%20123".
Proof. reflexivity. Qed.

Example replace_first_only : Js.replace "/a/:x/:x" ":x" "1" = "/a/1/:x".
Proof. reflexivity. Qed.

Example btoa_key : Js.btoa "key:" = "a2V5Og==".
Proof. reflexivity. Qed.

Example atob_key : Js.atob "a2V5Og==" = Some "key:".
Proof. reflexivity. Qed.

Example stringify_tags :
  Js.JSON_stringify (Js.JObj [("tags", Js.JArr [Js.JStr "a"; Js.JStr "b"])])
  = Js.dq "{'tags':['a','b']}".
Proof. reflexivity. Qed.

Example addTags_build2 :
  Build2.createEndpoint (answer (res_ok Js.JNull)) addOpportunityTags "key"
    {| params := Some [("opportunity", "op1")]; query := None;
       body := Some (Js.JObj [("tags", Js.JArr [Js.JStr "a"; Js.JStr "b"])]) |}
    no_init tt
  = ({| config := addOpportunityTags; net := tt;
        sent := [ {| fc_url := "https://api.lever.co/v1/opportunities/op1/addTags";
                     fc_init :=
                       {| ri_method := Some "POST";
                          ri_headers :=
                            Some (<["Content-Type" := "application/json"]>
                                    {[ "Authorization" := "Basic a2V5Og==" ]});
                          ri_body := Some (Js.dq "{'tags':['a','b']}");
                          ri_other := ∅ |} |} ] |},
     inr Js.JNull).
Proof. vm_compute. reflexivity. Qed.

(** ** Running a call *)

Lemma ts_call_unfold W (fetch : Fetch W) apiKey ps q b init (s : Env W) :
  Ts.call fetch apiKey {| params := Some ps; query := Some q; body := b |} init s
  = let url := full_url (interpolate (path (config s)) ps) (query_string q) in
    let m := method (config s) in
    let opts :=
      spread
        (spread
           {| ri_method := Some (method_name m);
              ri_headers := Some (merged_headers m apiKey init);
              ri_body := None; ri_other := ∅ |}
           (if decide (m = GET) then no_init
            else {| ri_method := None; ri_headers := None;
                    ri_body := Js.JSON_stringify <$> b; ri_other := ∅ |}))
        init in
    let s' := {| config := config s; net := (fetch (net s) url opts).1;
                 sent := sent s ++ [{| fc_url := url; fc_init := opts |}] |} in
    match (fetch (net s) url opts).2 with
    | inl e => (s', inl e)
    | inr res =>
        if ok res
        then (s', match res_json res with
                  | Some v => inr v
                  | None => inl SyntaxError
                  end)
        else (s', inl (JsError ("HTTP " +:+ Js.Z_to_string (status res) +:+ ": "
                                  +:+ statusText res)))
    end.
Proof.
  run_call.
  destruct (fetch _ _ _) as [w [e|res]]; cbn; [reflexivity|].
  destruct (ok res); cbn; [|reflexivity].
  destruct (res_json res); reflexivity.
Qed.

Lemma ok_spec res :
  ok res = true ↔ (200 ≤ status res ≤ 299)%Z.
Proof. unfold ok. rewrite andb_true_iff, !Z.leb_le. reflexivity. Qed.

(** ** The compiled file against its source *)

(** C10.  The executor of [dist/index.js] and the executor of
    [src/index.ts] are the same function: for every network, descriptor,
    credential, payload and override, and from every network state, both
    make the same calls of [fetch] (URL, method, headers, body), leave the
    same environment and return the same value or the same error. *)
Theorem dist_createEndpoint_eq_ts W (fetch : Fetch W) cfg apiKey data init (w : W) :
  Dist.createEndpoint fetch cfg apiKey data init w
  = Ts.createEndpoint fetch cfg apiKey data init w.
Proof.
  unfold Dist.createEndpoint, Ts.createEndpoint, Dist.call, Ts.call.
  unfold interpolate, query_string, full_url, merged_headers, default_headers.
  reflexivity.
Qed.

(** ** The descriptor and the environment *)

(** C9.  A call, whether it returns or throws, leaves the captured
    descriptor as it was, and nothing of the environment but the
    descriptor and the network reaches it: run from any environment it
    does what a fresh executor over the same descriptor does, its calls of
    [fetch] added after the earlier ones. *)
Theorem call_leaves_descriptor W (fetch : Fetch W) apiKey data init (s : Env W) :
  let r := Ts.call fetch apiKey data init s in
  let fresh := Ts.createEndpoint fetch (config s) apiKey data init (net s) in
  config r.1 = config s
  ∧ config fresh.1 = config s
  ∧ r = ({| config := config s; net := net fresh.1;
            sent := sent s ++ sent fresh.1 |}, fresh.2).
Proof.
  destruct s as [cfg w log], data as [[ps|] [q|] b]; run_call;
    rewrite ?app_nil_r; try (repeat split; reflexivity).
  destruct (fetch _ _ _) as [w' [e|res]]; cbn; [repeat split; reflexivity|].
  destruct (negb (ok res)); cbn; [repeat split; reflexivity|].
  destruct (res_json res); repeat split; reflexivity.
Qed.

(** ** Response interpretation *)

(** What [src/index.ts] does with the response, for every input that
    reaches [fetch]: the rejection of [fetch] as it is, [res.json()] for a
    status in [200,299], and otherwise an [Error] whose message is built
    from the status and the status text alone. *)
Lemma ts_response_interpretation W (fetch : Fetch W) cfg apiKey ps q b init (w : W) :
  let r := Ts.createEndpoint fetch cfg apiKey
             {| params := Some ps; query := Some q; body := b |} init w in
  ∃ c, the_request r = Some c
     ∧ r.2 = match (fetch w (fc_url c) (fc_init c)).2 with
             | inl e => inl e
             | inr res =>
                 if ok res
                 then match res_json res with
                      | Some v => inr v
                      | None => inl SyntaxError
                      end
                 else inl (JsError ("HTTP " +:+ Js.Z_to_string (status res)
                                      +:+ ": " +:+ statusText res))
             end.
Proof.
  cbv zeta. unfold Ts.createEndpoint. rewrite ts_call_unfold. cbv zeta.
  cbn [config net sent]. eexists. split.
  - unfold the_request.
    destruct (fetch _ _ _).2 as [e|res]; [|destruct (ok res)]; reflexivity.
  - cbn [fc_url fc_init].
    destruct (fetch _ _ _).2 as [e|res]; [|destruct (ok res)]; reflexivity.
Qed.

(** The second build makes the claimed error: the message holds the
    method, the URL that was fetched, the status and the status text. *)
Lemma build2_response_interpretation W (fetch : Fetch W) cfg apiKey data init (w : W) :
  let r := Build2.createEndpoint fetch cfg apiKey data init w in
  ∃ c, the_request r = Some c
     ∧ r.2 = match (fetch w (fc_url c) (fc_init c)).2 with
             | inl e => inl e
             | inr res =>
                 if ok res
                 then match res_json res with
                      | Some v => inr v
                      | None => inl SyntaxError
                      end
                 else inl (JsError (method_name (method cfg) +:+ " "
                                      +:+ fc_url c +:+ " HTTP "
                                      +:+ Js.Z_to_string (status res)
                                      +:+ ": " +:+ statusText res))
             end.
Proof.
  cbv zeta. run_call. unfold the_request.
  destruct (fetch _ _ _) as [w' [e|res]] eqn:E; cbn [fst snd sent app].
  - eexists. split; [reflexivity|]. cbn [fc_url fc_init]. rewrite E.
    reflexivity.
  - destruct (ok res) eqn:Hok; cbn [negb].
    + destruct (res_json res) eqn:J; cbn [fst snd sent app];
        (eexists; split; [reflexivity|]; cbn [fc_url fc_init]; rewrite E;
         cbn [snd]; rewrite Hok, J; reflexivity).
    + cbn [fst snd sent app]. eexists. split; [reflexivity|].
      cbn [fc_url fc_init]. rewrite E. cbn [snd]. rewrite Hok. reflexivity.
Qed.

(** C1.  [src/index.ts] on a 404: the error of a GET of
    [/opportunities/op1] and the error of a POST to
    [/opportunities/op2/addTags] are the same [Error], with the message
    [HTTP 404: Not Found]; neither the method nor the URL occurs in it. *)
Theorem ts_error_without_method_and_url :
  let get :=
    Ts.createEndpoint (answer res_404) retrieveOpportunity "key"
      {| params := Some [("opportunity", "op1")]; query := Some [];
         body := None |} no_init tt in
  let post :=
    Ts.createEndpoint (answer res_404) addOpportunityTags "key"
      {| params := Some [("opportunity", "op2")]; query := Some [];
         body := Some tags_ab |} no_init tt in
  fc_url <$> the_request get = Some "https://api.lever.co/v1/opportunities/op1"
  ∧ fc_url <$> the_request post
    = Some "https://api.lever.co/v1/opportunities/op2/addTags"
  ∧ get.2 = inl (JsError "HTTP 404: Not Found")
  ∧ post.2 = inl (JsError "HTTP 404: Not Found")
  ∧ occurs "GET" "HTTP 404: Not Found" = false
  ∧ occurs "POST" "HTTP 404: Not Found" = false
  ∧ occurs "https://api.lever.co/v1/opportunities/op1" "HTTP 404: Not Found"
    = false.
Proof. vm_compute. repeat split; reflexivity. Qed.

(** ** An absent query *)

(** C3.  [src/index.ts] with no [query] in the payload: [Object.entries]
    throws a TypeError before [fetch] is called, whatever the descriptor,
    the credential, the rest of the payload and the overrides. *)
Theorem ts_absent_query_throws W (fetch : Fetch W) cfg apiKey ps b init (w : W) :
  Ts.createEndpoint fetch cfg apiKey
    {| params := ps; query := None; body := b |} init w
  = ({| config := cfg; net := w; sent := [] |}, inl entries_TypeError).
Proof. destruct ps; reflexivity. Qed.

Lemma str_app_empty_r (s : string) : s +:+ "" = s.
Proof. induction s as [|c s IH]; cbn; [reflexivity | rewrite IH; reflexivity]. Qed.

Lemma str_app_assoc (s t u : string) : (s +:+ t) +:+ u = s +:+ t +:+ u.
Proof. induction s as [|c s IH]; cbn; [reflexivity | rewrite IH; reflexivity]. Qed.

Lemma build2_sent W (fetch : Fetch W) cfg apiKey data init (w : W) :
  ∃ opts,
    sent (Build2.createEndpoint fetch cfg apiKey data init w).1
    = [ {| fc_url := full_url (interpolate (path cfg) (default [] (params data)))
                       (query_string (default [] (query data)));
           fc_init := opts |} ].
Proof.
  run_call. eexists.
  destruct (fetch _ _ _) as [w' [e|res]]; cbn; [reflexivity|].
  destruct (negb (ok res)); cbn; [reflexivity|].
  destruct (res_json res); reflexivity.
Qed.

(** The second build goes on: one call of [fetch], to the root followed by
    the interpolated path, with no [?]. *)
Lemma build2_absent_query_proceeds W (fetch : Fetch W) cfg apiKey ps b init (w : W) :
  let r := Build2.createEndpoint fetch cfg apiKey
             {| params := ps; query := None; body := b |} init w in
  ∃ c, the_request r = Some c
     ∧ fc_url c = ROOT +:+ interpolate (path cfg) (default [] ps).
Proof.
  cbv zeta. unfold the_request.
  destruct (build2_sent W fetch cfg apiKey
              {| params := ps; query := None; body := b |} init w) as [opts ->].
  eexists. split; [reflexivity|]. cbn [fc_url params query].
  unfold full_url. cbn. rewrite str_app_empty_r. reflexivity.
Qed.

(** ** The request that [src/index.ts] makes *)

Lemma ts_sent W (fetch : Fetch W) cfg apiKey ps q b init (w : W) :
  sent (Ts.createEndpoint fetch cfg apiKey
          {| params := Some ps; query := Some q; body := b |} init w).1
  = [ {| fc_url := full_url (interpolate (path cfg) ps) (query_string q);
         fc_init :=
           spread
             (spread
                {| ri_method := Some (method_name (method cfg));
                   ri_headers := Some (merged_headers (method cfg) apiKey init);
                   ri_body := None; ri_other := ∅ |}
                (if decide (method cfg = GET) then no_init
                 else {| ri_method := None; ri_headers := None;
                         ri_body := Js.JSON_stringify <$> b; ri_other := ∅ |}))
             init |} ].
Proof.
  unfold Ts.createEndpoint. rewrite ts_call_unfold. cbv zeta.
  cbn [config net sent].
  destruct (fetch _ _ _).2 as [e|res]; [|destruct (ok res)]; reflexivity.
Qed.

(** C6.  [src/index.ts] on the addTags scenario, called with [params] and
    [body] and no [query]: a TypeError and no call of [fetch], on every
    network and for every credential. *)
Theorem ts_addTags_scenario_throws W (fetch : Fetch W) apiKey (w : W) :
  Ts.createEndpoint fetch addOpportunityTags apiKey
    {| params := Some [("opportunity", "op1")]; query := None;
       body := Some tags_ab |} no_init w
  = ({| config := addOpportunityTags; net := w; sent := [] |},
     inl entries_TypeError).
Proof. reflexivity. Qed.

(** With an empty [query] object added to the payload the request of the
    scenario is made, once. *)
Lemma ts_addTags_with_empty_query W (fetch : Fetch W) (w : W) :
  sent (Ts.createEndpoint fetch addOpportunityTags "key"
          {| params := Some [("opportunity", "op1")]; query := Some [];
             body := Some tags_ab |} no_init w).1
  = [ {| fc_url := "https://api.lever.co/v1/opportunities/op1/addTags";
         fc_init :=
           {| ri_method := Some "POST";
              ri_headers :=
                Some (<["Content-Type" := "application/json"]>
                        {[ "Authorization" := "Basic a2V5Og==" ]});
              ri_body := Some (Js.dq "{'tags':['a','b']}");
              ri_other := ∅ |} |} ].
Proof. rewrite ts_sent. vm_compute. reflexivity. Qed.

(** The second build makes it from the payload of the scenario as it is. *)
Lemma build2_addTags_scenario W (fetch : Fetch W) (w : W) :
  sent (Build2.createEndpoint fetch addOpportunityTags "key"
          {| params := Some [("opportunity", "op1")]; query := None;
             body := Some tags_ab |} no_init w).1
  = [ {| fc_url := "https://api.lever.co/v1/opportunities/op1/addTags";
         fc_init :=
           {| ri_method := Some "POST";
              ri_headers :=
                Some (<["Content-Type" := "application/json"]>
                        {[ "Authorization" := "Basic a2V5Og==" ]});
              ri_body := Some (Js.dq "{'tags':['a','b']}");
              ri_other := ∅ |} |} ].
Proof.
  run_call.
  destruct (fetch _ _ _) as [w' [e|res]] eqn:E; cbn [fst sent app].
  - vm_compute. reflexivity.
  - destruct (negb (ok res)); cbn [fst sent app].
    + vm_compute. reflexivity.
    + destruct (res_json res); vm_compute; reflexivity.
Qed.

(** ** Headers *)

(** C2.  [src/index.ts] called with the override [{headers: {X-Trace: 1}}]:
    the headers computed by the merge hold [Authorization], the headers
    given to [fetch] are the caller's object alone, because [...init] is
    spread after [headers: mergedHeaders]. *)
Theorem ts_init_headers_replace_merged :
  let init := {| ri_method := None; ri_headers := Some {[ "X-Trace" := "1" ]};
                 ri_body := None; ri_other := ∅ |} in
  let r := Ts.createEndpoint (answer (res_ok Js.JNull)) retrieveOpportunity "key"
             {| params := Some [("opportunity", "op1")]; query := Some [];
                body := None |} init tt in
  merged_headers GET "key" init
  = <["X-Trace" := "1"]> {[ "Authorization" := "Basic a2V5Og==" ]}
  ∧ req_headers <$> the_request r = Some {[ "X-Trace" := "1" ]}
  ∧ (req_headers <$> the_request r) ≫= (.!! "Authorization") = None.
Proof. vm_compute. repeat split; reflexivity. Qed.

(** The same for every caller-supplied headers object. *)
Lemma ts_request_headers W (fetch : Fetch W) cfg apiKey ps q b init (w : W) :
  req_headers <$>
    the_request (Ts.createEndpoint fetch cfg apiKey
                   {| params := Some ps; query := Some q; body := b |} init w)
  = Some (match ri_headers init with
          | Some h => h
          | None => default_headers (method cfg) apiKey
          end).
Proof.
  unfold the_request. rewrite ts_sent. cbn [fmap option_fmap option_map].
  unfold req_headers. cbn [fc_init spread ri_headers override].
  destruct (ri_headers init) as [h|] eqn:Hh; cbn [override default].
  - reflexivity.
  - unfold merged_headers. rewrite Hh. cbn [default].
    destruct (decide (method cfg = GET)); cbn [ri_headers no_init override default];
      rewrite (left_id_L ∅ (∪)); reflexivity.
Qed.

(** C8.  In [src/index.ts] the [Authorization] header of the request is
    the one of the caller's headers object whenever the override has such
    an object: called with [{headers: {X-Trace: 1}}], which does not name
    [Authorization], the request has no [Authorization] header. *)
Theorem ts_authorization_from_init_headers W (fetch : Fetch W) cfg apiKey ps q b
    (h : gmap string string) other (w : W) :
  (req_headers <$>
     the_request (Ts.createEndpoint fetch cfg apiKey
                    {| params := Some ps; query := Some q; body := b |}
                    {| ri_method := None; ri_headers := Some h;
                       ri_body := None; ri_other := other |} w))
    ≫= (.!! "Authorization")
  = h !! "Authorization"
  ∧ (req_headers <$>
       the_request (Ts.createEndpoint (answer (res_ok Js.JNull))
                      retrieveOpportunity "key"
                      {| params := Some [("opportunity", "op1")];
                         query := Some []; body := None |}
                      {| ri_method := None;
                         ri_headers := Some {[ "X-Trace" := "1" ]};
                         ri_body := None; ri_other := ∅ |} tt))
      ≫= (.!! "Authorization")
    = None.
Proof.
  rewrite !ts_request_headers. split; reflexivity.
Qed.

(** With no headers object in the override the header is the Basic
    credential. *)
Lemma ts_authorization_default W (fetch : Fetch W) cfg apiKey ps q b init (w : W) :
  ri_headers init = None →
  (req_headers <$>
     the_request (Ts.createEndpoint fetch cfg apiKey
                    {| params := Some ps; query := Some q; body := b |} init w))
    ≫= (.!! "Authorization")
  = Some ("Basic " +:+ Js.btoa (apiKey +:+ ":")).
Proof.
  intros Hh. rewrite ts_request_headers, Hh. cbn [mbind option_bind].
  unfold default_headers.
  destruct (decide (method cfg ≠ GET)).
  - rewrite lookup_insert_ne by discriminate. apply lookup_singleton_eq.
  - apply lookup_singleton_eq.
Qed.

(** ** Body *)



(** ** Query serialization *)





Lemma join_truthy sep (l : list string) :
  (∀ s, s ∈ l → truthy s = true) → truthy (Js.join sep l) = negb (bool_decide (l = [])).
Proof.
  destruct l as [|s l]; [reflexivity|]. intros H.
  assert (Hs : truthy s = true) by (apply H; left).
  destruct s as [|c s]; [discriminate|]. destruct l; reflexivity.
Qed.

Lemma form_pair_truthy kv : truthy (Js.form_pair kv) = true.
Proof.
  unfold Js.form_pair. destruct (Js.form_encode kv.1); reflexivity.
Qed.

Lemma query_string_truthy q :
  truthy (query_string q) = negb (bool_decide (query_pairs q = [])).
Proof.
  unfold query_string, Js.URLSearchParams_toString. fold (query_pairs q).
  rewrite join_truthy.
  - destruct (query_pairs q); reflexivity.
  - intros s Hs. apply list_elem_of_fmap in Hs as (kv & -> & _).
    apply form_pair_truthy.
Qed.

Example parse_retrieveApplication :
  parse (path retrieveApplication)
  = [Lit "/opportunities/"; Hole "opportunity"; Lit "/applications/";
     Hole "application"].
Proof. reflexivity. Qed.

Example well_formed_retrieveApplication :
  well_formed (path retrieveApplication) = true.
Proof. reflexivity. Qed.

(** ** Text search and replacement *)

Lemma prefix_nil (s : string) : String.prefix "" s = true.
Proof. destruct s; reflexivity. Qed.

Lemma prefix_cons a p b s :
  String.prefix (String a p) (String b s)
  = Ascii.eqb a b && String.prefix p s.
Proof.
  cbn. destruct (ascii_dec a b) as [->|Hne].
  - rewrite Ascii.eqb_refl. reflexivity.
  - destruct (Ascii.eqb_spec a b); [contradiction | reflexivity].
Qed.

Lemma prefix_app (p r : string) : String.prefix p (p +:+ r) = true.
Proof.
  induction p as [|c p IH]; [apply prefix_nil|].
  cbn [String.append]. rewrite prefix_cons, Ascii.eqb_refl. exact IH.
Qed.

Lemma prefix_inv (p s : string) :
  String.prefix p s = true → ∃ r, s = p +:+ r.
Proof.
  revert s. induction p as [|c p IH]; intros s H.
  - exists s. reflexivity.
  - destruct s as [|d s]; [discriminate|].
    rewrite prefix_cons in H. apply andb_true_iff in H as [Hc Hp].
    apply Ascii.eqb_eq in Hc as ->. destruct (IH s Hp) as [r ->].
    exists r. reflexivity.
Qed.

Lemma prefix_app_cases (k n r : string) :
  String.prefix k (n +:+ r) = true →
  String.prefix k n = true ∨ String.prefix n k = true.
Proof.
  revert n. induction k as [|c k IH]; intros n H.
  - left. apply prefix_nil.
  - destruct n as [|d n].
    + right. reflexivity.
    + cbn [String.append] in H. rewrite prefix_cons in H.
      apply andb_true_iff in H as [Hc Hp]. rewrite !prefix_cons.
      rewrite (Ascii.eqb_sym d c), Hc. cbn. apply IH, Hp.
Qed.

Lemma drop_str_app (p r : string) : Js.drop_str (String.length p) (p +:+ r) = r.
Proof. induction p as [|c p IH]; [reflexivity | exact IH]. Qed.

Lemma split_at_cons pat c s :
  Js.split_at pat (String c s)
  = if String.prefix pat (String c s)
    then Some ("", Js.drop_str (String.length pat) (String c s))
    else match Js.split_at pat s with
         | Some (b, a) => Some (String c b, a)
         | None => None
         end.
Proof. reflexivity. Qed.

Lemma in_string_app c (s t : string) :
  Js.in_string c (s +:+ t) = Js.in_string c s || Js.in_string c t.
Proof.
  induction s as [|d s IH]; [reflexivity|].
  cbn. rewrite IH, orb_assoc. reflexivity.
Qed.

(** [split_at] finds the first occurrence. *)
Lemma split_at_Some pat s b a :
  Js.split_at pat s = Some (b, a) →
  s = b +:+ pat +:+ a
  ∧ ∀ b' a', s = b' +:+ pat +:+ a' → (String.length b ≤ String.length b')%nat.
Proof.
  revert b a. induction s as [|c s IH]; intros b a.
  - destruct pat as [|p0 pat']; [|discriminate]. intros [= <- <-].
    split; [reflexivity|]. intros; cbn; lia.
  - rewrite split_at_cons. destruct (String.prefix pat (String c s)) eqn:Hp.
    + intros [= <- <-]. apply prefix_inv in Hp as [r Hr]. rewrite Hr.
      rewrite drop_str_app. split; [reflexivity|]. intros; cbn; lia.
    + destruct (Js.split_at pat s) as [[b0 a0]|] eqn:Hs; [|discriminate].
      intros [= <- <-]. destruct (IH b0 a0 eq_refl) as [Heq Hmin].
      split; [cbn; f_equal; exact Heq|].
      intros [|c' b'] a' Hb'.
      * cbn in Hb'. rewrite Hb', prefix_app in Hp. discriminate.
      * cbn in Hb'. injection Hb' as -> Hb'. cbn.
        apply le_n_S, (Hmin b' a'), Hb'.
Qed.

Lemma split_at_None pat s :
  Js.split_at pat s = None → ∀ b a, s ≠ b +:+ pat +:+ a.
Proof.
  induction s as [|c s IH].
  - destruct pat as [|p0 pat']; [discriminate|].
    intros _ b a Hs. destruct b; discriminate.
  - rewrite split_at_cons. destruct (String.prefix pat (String c s)) eqn:Hp;
      [discriminate|].
    destruct (Js.split_at pat s) as [[b0 a0]|] eqn:Hs; [discriminate|].
    intros _ [|c' b] a Hb.
    + cbn in Hb. rewrite Hb, prefix_app in Hp. discriminate.
    + cbn in Hb. injection Hb as -> Hb. exact (IH eq_refl b a Hb).
Qed.

Lemma GetSubstitution_plain m b a rep :
  dollar_free rep = true → Js.GetSubstitution m b a rep = rep.
Proof.
  unfold dollar_free. induction rep as [|c rep IH]; [reflexivity|].
  cbn [Js.in_string Js.GetSubstitution]. rewrite negb_orb, (Ascii.eqb_sym "$" c).
  intros H. apply andb_true_iff in H as [Hc Hrep].
  apply negb_true_iff in Hc. rewrite Hc, IH by exact Hrep. reflexivity.
Qed.

(** ** What [encodeURIComponent] writes *)

Lemma hex_upper_alnum d : Js.is_alnum (Js.hex_upper d) = true.
Proof.
  unfold Js.hex_upper, Js.nth_char.
  destruct (N.to_nat d) as [|n]; [reflexivity|].
  do 15 (destruct n as [|n]; [reflexivity|]). reflexivity.
Qed.

Lemma unreserved_neq c0 c :
  Js.uri_unreserved c0 = false → Js.uri_unreserved c = true →
  Ascii.eqb c0 c = false.
Proof.
  intros H0 H. destruct (Ascii.eqb_spec c0 c) as [->|]; [congruence | reflexivity].
Qed.

Lemma pct_avoids c0 b :
  Js.uri_unreserved c0 = false → c0 ≠ "%"%char → Js.in_string c0 (Js.pct b) = false.
Proof.
  intros H0 Hp. unfold Js.pct. cbn [Js.in_string].
  destruct (Ascii.eqb_spec c0 "%") as [->|_]; [contradiction|].
  rewrite !unreserved_neq;
    try (exact H0); try reflexivity;
    unfold Js.uri_unreserved; rewrite hex_upper_alnum; reflexivity.
Qed.

Lemma encode_unit_avoids c0 c :
  Js.uri_unreserved c0 = false → c0 ≠ "%"%char →
  Js.in_string c0 (Js.encode_unit c) = false.
Proof.
  intros H0 Hp. unfold Js.encode_unit.
  destruct (Js.uri_unreserved c) eqn:Hc.
  - cbn [Js.in_string]. rewrite (unreserved_neq c0 c H0 Hc). reflexivity.
  - unfold Js.utf8. destruct (Js.code c <? 128);
      cbn [map Js.concat_str]; rewrite ?in_string_app, !pct_avoids by assumption;
      reflexivity.
Qed.

Lemma encodeURIComponent_avoids c0 s :
  Js.uri_unreserved c0 = false → c0 ≠ "%"%char →
  Js.in_string c0 (Js.encodeURIComponent s) = false.
Proof.
  intros H0 Hp. induction s as [|c s IH]; [reflexivity|].
  cbn [Js.encodeURIComponent]. rewrite in_string_app, IH, encode_unit_avoids by assumption.
  reflexivity.
Qed.

Lemma encodeURIComponent_colon_free s :
  colon_free (Js.encodeURIComponent s) = true.
Proof.
  unfold colon_free. rewrite encodeURIComponent_avoids; [reflexivity..|discriminate].
Qed.

Lemma encodeURIComponent_dollar_free s :
  dollar_free (Js.encodeURIComponent s) = true.
Proof.
  unfold dollar_free. rewrite encodeURIComponent_avoids; [reflexivity..|discriminate].
Qed.

(** ** One [replace] on a template in pieces *)

Lemma split_at_skip_char c0 k s rest :
  Js.in_string c0 s = false →
  Js.split_at (String c0 k) (s +:+ rest)
  = match Js.split_at (String c0 k) rest with
    | Some (b, a) => Some (s +:+ b, a)
    | None => None
    end.
Proof.
  induction s as [|c s IH]; intros Hs.
  - cbn [String.append]. destruct (Js.split_at _ rest) as [[b a]|]; reflexivity.
  - cbn [Js.in_string] in Hs. apply orb_false_iff in Hs as [Hc Hs].
    cbn [String.append]. rewrite split_at_cons, prefix_cons, Hc.
    cbn [andb]. rewrite IH by exact Hs.
    destruct (Js.split_at _ rest) as [[b a]|]; reflexivity.
Qed.

Lemma split_at_skip k s rest :
  colon_free s = true →
  Js.split_at (String ":" k) (s +:+ rest)
  = match Js.split_at (String ":" k) rest with
    | Some (b, a) => Some (s +:+ b, a)
    | None => None
    end.
Proof.
  unfold colon_free. intros Hs. apply split_at_skip_char.
  apply negb_true_iff, Hs.
Qed.

Lemma replace_skip k rep s rest :
  colon_free s = true → dollar_free rep = true →
  Js.replace (s +:+ rest) (String ":" k) rep
  = s +:+ Js.replace rest (String ":" k) rep.
Proof.
  intros Hs Hrep. unfold Js.replace. rewrite split_at_skip by exact Hs.
  destruct (Js.split_at _ rest) as [[b a]|]; [|reflexivity].
  rewrite !GetSubstitution_plain by exact Hrep. apply str_app_assoc.
Qed.

Lemma replace_other_hole k rep n rest :
  colon_free n = true → unrelated k n = true → dollar_free rep = true →
  Js.replace (String ":" (n +:+ rest)) (String ":" k) rep
  = String ":" (n +:+ Js.replace rest (String ":" k) rep).
Proof.
  intros Hn Hu Hrep. unfold unrelated in Hu.
  apply andb_true_iff in Hu as [Hkn Hnk].
  apply negb_true_iff in Hkn, Hnk.
  assert (Hp : String.prefix k (n +:+ rest) = false).
  { destruct (String.prefix k (n +:+ rest)) eqn:E; [|reflexivity].
    apply prefix_app_cases in E as [E|E]; congruence. }
  rewrite <- (replace_skip k rep n rest Hn Hrep).
  unfold Js.replace at 1. rewrite split_at_cons, prefix_cons, Hp, andb_false_r.
  unfold Js.replace. destruct (Js.split_at _ (n +:+ rest)) as [[b a]|]; [|reflexivity].
  rewrite !GetSubstitution_plain by exact Hrep. reflexivity.
Qed.

Lemma replace_same_hole k rep rest :
  dollar_free rep = true →
  Js.replace (String ":" (k +:+ rest)) (String ":" k) rep = rep +:+ rest.
Proof.
  intros Hrep. unfold Js.replace.
  rewrite split_at_cons, prefix_cons, Ascii.eqb_refl, prefix_app.
  cbn [andb]. rewrite GetSubstitution_plain by exact Hrep.
  cbn [String.length Js.drop_str String.append]. rewrite drop_str_app. reflexivity.
Qed.

Lemma render_cons p ps : render (p :: ps) = render_piece p +:+ render ps.
Proof. reflexivity. Qed.

Lemma replace_render k rep ps :
  forallb piece_colon_free ps = true →
  forallb (λ n, String.eqb n k || unrelated k n) (holes ps) = true →
  dollar_free rep = true →
  Js.replace (render ps) (String ":" k) rep = render (fill_first k rep ps).
Proof.
  intros Hcf Hk Hrep. induction ps as [|[s|n] ps IH].
  - reflexivity.
  - cbn [forallb piece_colon_free] in Hcf. apply andb_true_iff in Hcf as [Hs Hcf].
    cbn [fill_first]. rewrite !render_cons. cbn [render_piece].
    rewrite replace_skip by assumption. rewrite IH by assumption. reflexivity.
  - cbn [forallb piece_colon_free] in Hcf. apply andb_true_iff in Hcf as [Hn Hcf].
    cbn [holes omap hole_name forallb] in Hk. fold (holes ps) in Hk.
    apply andb_true_iff in Hk as [Hnk Hk].
    cbn [fill_first]. rewrite render_cons. cbn [render_piece String.append].
    destruct (String.eqb_spec n k) as [->|Hne].
    + rewrite replace_same_hole by exact Hrep. reflexivity.
    + cbn [orb] in Hnk. rewrite replace_other_hole by assumption.
      rewrite IH by assumption. reflexivity.
Qed.

(** ** Reading a template *)

Lemma span_name_app (l : string) : (span_name l).1 +:+ (span_name l).2 = l.
Proof.
  induction l as [|c l IH]; [reflexivity|].
  cbn [span_name]. destruct (is_name_char c); cbn [fst snd String.append].
  - rewrite IH. reflexivity.
  - reflexivity.
Qed.

Lemma render_lit_cons c ps : render (lit_cons c ps) = String c (render ps).
Proof. destruct ps as [|[l|n] ps]; reflexivity. Qed.

Lemma render_hole_cons ps : render (hole_cons ps) = String ":" (render ps).
Proof.
  destruct ps as [|[l|n] ps]; try reflexivity.
  unfold hole_cons. rewrite !render_cons. cbn [render_piece String.append].
  f_equal. rewrite <- (span_name_app l) at 3.
  destruct (span_name l).2 as [|c r] eqn:E.
  - rewrite str_app_empty_r. reflexivity.
  - rewrite render_cons. cbn [render_piece]. rewrite str_app_assoc. reflexivity.
Qed.

Lemma render_parse (template : string) : render (parse template) = template.
Proof.
  induction template as [|c s IH]; [reflexivity|].
  cbn [parse]. destruct (Ascii.eqb_spec c ":") as [->|_].
  - rewrite render_hole_cons, IH. reflexivity.
  - rewrite render_lit_cons, IH. reflexivity.
Qed.

(** ** Filling placeholders *)

Lemma holes_lit s ps : holes (Lit s :: ps) = holes ps.
Proof. reflexivity. Qed.

Lemma holes_hole n ps : holes (Hole n :: ps) = n :: holes ps.
Proof. reflexivity. Qed.

Lemma holes_fill_first k rep ps :
  holes (fill_first k rep ps) = remove_first k (holes ps).
Proof.
  induction ps as [|[s|n] ps IH]; [reflexivity | exact IH |].
  cbn [fill_first]. rewrite holes_hole. cbn [remove_first].
  destruct (String.eqb n k); [reflexivity|].
  rewrite holes_hole, IH. reflexivity.
Qed.

Lemma forallb_holes_fill_first (P : string → bool) k rep ps :
  forallb P (holes ps) = true → forallb P (holes (fill_first k rep ps)) = true.
Proof.
  rewrite holes_fill_first. induction (holes ps) as [|n l IH]; [reflexivity|].
  cbn [forallb remove_first]. intros H. apply andb_true_iff in H as [Hn Hl].
  destruct (String.eqb n k); [exact Hl|].
  cbn [forallb]. rewrite Hn, IH by exact Hl. reflexivity.
Qed.

Lemma prefix_free_fill_first k rep ps :
  prefix_free (holes ps) = true → prefix_free (holes (fill_first k rep ps)) = true.
Proof.
  induction ps as [|[s|n] ps IH]; [reflexivity | exact IH |].
  cbn [fill_first]. rewrite holes_hole.
  cbn [prefix_free]. intros H. apply andb_true_iff in H as [Hn Hps].
  destruct (String.eqb n k); [exact Hps|].
  rewrite holes_hole. cbn [prefix_free]. rewrite IH by exact Hps.
  rewrite forallb_holes_fill_first by exact Hn. reflexivity.
Qed.

Lemma colon_free_fill_first k rep ps :
  colon_free rep = true →
  forallb piece_colon_free ps = true →
  forallb piece_colon_free (fill_first k rep ps) = true.
Proof.
  intros Hrep. induction ps as [|[s|n] ps IH]; [reflexivity | |];
    cbn [fill_first forallb]; intros H; apply andb_true_iff in H as [Hp Hps].
  - rewrite Hp, IH by exact Hps. reflexivity.
  - destruct (String.eqb n k); cbn [forallb piece_colon_free].
    + rewrite Hrep, Hps. reflexivity.
    + cbn [piece_colon_free] in Hp. rewrite Hp, IH by exact Hps. reflexivity.
Qed.

Lemma wf_fill_first k rep ps :
  colon_free rep = true → wf_pieces ps = true →
  wf_pieces (fill_first k rep ps) = true.
Proof.
  unfold wf_pieces. intros Hrep H. apply andb_true_iff in H as [Hcf Hpf].
  rewrite colon_free_fill_first, prefix_free_fill_first by assumption.
  reflexivity.
Qed.

Lemma compatible_fill_first keys k rep ps :
  compatible keys (holes ps) = true →
  compatible keys (holes (fill_first k rep ps)) = true.
Proof.
  unfold compatible. induction keys as [|k' keys IH]; [reflexivity|].
  cbn [forallb]. intros H. apply andb_true_iff in H as [Hk Hkeys].
  rewrite forallb_holes_fill_first by exact Hk. rewrite IH by exact Hkeys.
  reflexivity.
Qed.

Lemma prefix_refl (s : string) : String.prefix s s = true.
Proof. rewrite <- (str_app_empty_r s) at 2. apply prefix_app. Qed.

Lemma unrelated_absent k (l : list string) :
  forallb (unrelated k) l = true → k ∉ l.
Proof.
  induction l as [|n l IH]; cbn [forallb]; intros H.
  - apply not_elem_of_nil.
  - apply andb_true_iff in H as [Hn Hl]. apply not_elem_of_cons. split.
    + intros ->. unfold unrelated in Hn. rewrite prefix_refl in Hn. discriminate.
    + apply IH, Hl.
Qed.

Lemma fill_absent k v es ps :
  k ∉ holes ps → fill ((k, v) :: es) ps = fill es ps.
Proof.
  induction ps as [|[s|n] ps IH]; [reflexivity | |];
    rewrite ?holes_lit, ?holes_hole; intros Hk.
  - cbn [fill map fill_piece]. f_equal. apply IH, Hk.
  - apply not_elem_of_cons in Hk as [Hne Hk].
    cbn [fill map fill_piece assoc].
    destruct (String.eqb_spec k n) as [->|_]; [contradiction|].
    f_equal. apply IH, Hk.
Qed.

Lemma fill_fill_first k v es ps :
  prefix_free (holes ps) = true →
  fill es (fill_first k (Js.encodeURIComponent v) ps) = fill ((k, v) :: es) ps.
Proof.
  induction ps as [|[s|n] ps IH]; [reflexivity | |];
    rewrite ?holes_lit, ?holes_hole.
  - intros H. cbn [fill_first fill map fill_piece]. f_equal. apply IH, H.
  - cbn [prefix_free]. intros H. apply andb_true_iff in H as [Hn Hps].
    cbn [fill_first]. destruct (String.eqb_spec n k) as [->|Hne].
    + cbn [fill map fill_piece assoc]. rewrite String.eqb_refl. f_equal.
      symmetry. apply fill_absent, unrelated_absent, Hn.
    + cbn [fill map fill_piece assoc].
      destruct (String.eqb_spec k n) as [->|_]; [contradiction|].
      f_equal. apply IH, Hps.
Qed.

Lemma interpolate_cons template k v es :
  interpolate template ((k, v) :: es)
  = interpolate (Js.replace template (String ":" k) (Js.encodeURIComponent v)) es.
Proof. reflexivity. Qed.

(** The loop on a well-formed template is the simultaneous filling. *)
Lemma interpolate_render es ps :
  wf_pieces ps = true → compatible es.*1 (holes ps) = true →
  interpolate (render ps) es = render (fill es ps).
Proof.
  revert ps. induction es as [|[k v] es IH]; intros ps Hwf Hc.
  - cbn [interpolate fold_left]. f_equal. unfold fill. clear.
    induction ps as [|[s|n] ps IHps]; [reflexivity | |];
      cbn [map fill_piece assoc]; rewrite <- IHps; reflexivity.
  - rewrite interpolate_cons.
    cbn [fmap list_fmap fst] in Hc. unfold compatible in Hc. cbn [forallb] in Hc.
    apply andb_true_iff in Hc as [Hk Hes]. fold (compatible es.*1 (holes ps)) in Hes.
    pose proof Hwf as Hwf'. unfold wf_pieces in Hwf'.
    apply andb_true_iff in Hwf' as [Hcf Hpf].
    rewrite replace_render;
      [| exact Hcf | exact Hk | apply encodeURIComponent_dollar_free].
    rewrite IH.
    + rewrite fill_fill_first by exact Hpf. reflexivity.
    + apply wf_fill_first; [apply encodeURIComponent_colon_free | exact Hwf].
    + apply compatible_fill_first, Hes.
Qed.

(** ** What the filling leaves *)

Lemma assoc_None k (es : list (string * string)) :
  assoc k es = None ↔ k ∉ es.*1.
Proof.
  induction es as [|[k' v] es IH]; cbn [assoc fmap list_fmap fst].
  - split; [intros _; apply not_elem_of_nil | reflexivity].
  - rewrite not_elem_of_cons. destruct (String.eqb_spec k' k) as [->|Hne].
    + split; [discriminate | intros [H _]; contradiction].
    + rewrite IH. split; [intros H; split; [congruence | exact H] | intros [_ H]; exact H].
Qed.

Lemma fill_colon_free es ps :
  forallb piece_colon_free ps = true →
  forallb piece_colon_free (fill es ps) = true.
Proof.
  induction ps as [|[s|n] ps IH]; [reflexivity | |];
    cbn [fill map fill_piece forallb]; intros H;
    apply andb_true_iff in H as [Hp Hps]; fold (fill es ps).
  - rewrite Hp, IH by exact Hps. reflexivity.
  - rewrite IH by exact Hps. destruct (assoc n es); cbn [piece_colon_free].
    + rewrite encodeURIComponent_colon_free. reflexivity.
    + cbn [piece_colon_free] in Hp. rewrite Hp. reflexivity.
Qed.

Lemma holes_fill_all es ps :
  (∀ n, n ∈ holes ps → n ∈ es.*1) → holes (fill es ps) = [].
Proof.
  induction ps as [|[s|n] ps IH]; [reflexivity | |];
    rewrite ?holes_lit, ?holes_hole; intros H;
    cbn [fill map fill_piece]; fold (fill es ps).
  - rewrite holes_lit. apply IH, H.
  - destruct (assoc n es) eqn:E.
    + rewrite holes_lit. apply IH. intros m Hm. apply H. right. exact Hm.
    + apply assoc_None in E. exfalso. apply E, H. left.
Qed.

Lemma render_colon_free ps :
  forallb piece_colon_free ps = true → holes ps = [] →
  colon_free (render ps) = true.
Proof.
  induction ps as [|[s|n] ps IH]; [reflexivity | | discriminate].
  cbn [forallb piece_colon_free]. rewrite holes_lit. intros H Hh.
  apply andb_true_iff in H as [Hs Hps]. rewrite render_cons.
  cbn [render_piece]. unfold colon_free in *. rewrite in_string_app.
  apply negb_true_iff in Hs. rewrite Hs. cbn [orb]. apply IH; assumption.
Qed.

Lemma render_app ps qs : render (ps ++ qs) = render ps +:+ render qs.
Proof.
  induction ps as [|p ps IH]; [reflexivity|].
  cbn [app]. rewrite !render_cons, IH, str_app_assoc. reflexivity.
Qed.

Lemma occurs_intro pat b a : occurs pat (b +:+ pat +:+ a) = true.
Proof.
  unfold occurs. destruct (Js.split_at pat (b +:+ pat +:+ a)) eqn:E; [reflexivity|].
  exfalso. exact (split_at_None _ _ E b a eq_refl).
Qed.

Lemma occurs_render n ps :
  Hole n ∈ ps → occurs (String ":" n) (render ps) = true.
Proof.
  intros H. apply list_elem_of_split in H as (l1 & l2 & ->).
  rewrite render_app, render_cons. apply occurs_intro.
Qed.

Lemma hole_elem n ps : n ∈ holes ps → Hole n ∈ ps.
Proof.
  induction ps as [|[s|m] ps IH]; rewrite ?holes_lit, ?holes_hole.
  - intros H. apply elem_of_nil in H as [].
  - intros H. right. apply IH, H.
  - intros H. apply elem_of_cons in H as [->|H]; [left | right; apply IH, H].
Qed.

Lemma fill_keeps n es ps :
  Hole n ∈ ps → n ∉ es.*1 → Hole n ∈ fill es ps.
Proof.
  intros H Hn. unfold fill. apply list_elem_of_fmap.
  exists (Hole n). split; [|exact H].
  cbn [fill_piece]. apply assoc_None in Hn. rewrite Hn. reflexivity.
Qed.

Lemma compatible_of_names keys names :
  prefix_free names = true → (∀ k, k ∈ keys → k ∈ names) →
  compatible keys names = true.
Proof.
  intros Hpf Hk. unfold compatible. apply forallb_forall. intros k Hin.
  apply list_elem_of_In in Hin. specialize (Hk k Hin). clear Hin keys.
  induction names as [|n names IH]; [reflexivity|].
  cbn [prefix_free] in Hpf. apply andb_true_iff in Hpf as [Hn Hpf].
  cbn [forallb]. apply elem_of_cons in Hk as [->|Hk].
  - rewrite String.eqb_refl. cbn [orb andb].
    clear -Hn. induction names as [|m names IH]; [reflexivity|].
    cbn [forallb] in *. apply andb_true_iff in Hn as [Hm Hn].
    rewrite Hm, orb_true_r. cbn [andb]. apply IH, Hn.
  - rewrite IH by assumption. rewrite andb_true_r.
    apply orb_true_iff. right.
    rewrite forallb_forall in Hn. apply list_elem_of_In in Hk.
    specialize (Hn k Hk). unfold unrelated in *.
    rewrite andb_comm. exact Hn.
Qed.

Lemma holes_lit_cons c ps : holes (lit_cons c ps) = holes ps.
Proof. destruct ps as [|[l|n] ps]; reflexivity. Qed.

Lemma placeholders_colon_free s : colon_free s = true → placeholders s = [].
Proof.
  unfold placeholders, colon_free. induction s as [|c s IH]; [reflexivity|].
  cbn [Js.in_string parse]. rewrite negb_orb, (Ascii.eqb_sym ":" c).
  intros H. apply andb_true_iff in H as [Hc Hs]. apply negb_true_iff in Hc.
  rewrite Hc, holes_lit_cons. apply IH, Hs.
Qed.

(** ** Path interpolation *)

Lemma interpolate_snoc template es k v :
  interpolate template (es ++ [(k, v)])
  = Js.replace (interpolate template es) (":" +:+ k) (Js.encodeURIComponent v).
Proof. unfold interpolate. rewrite fold_left_app. reflexivity. Qed.

(** One [replace] of the loop: the text before the first occurrence of
    [:<name>], the encoded value, the text after it; the URL as it is when
    [:<name>] does not occur. *)
Lemma replace_token url k v :
  match Js.split_at (":" +:+ k) url with
  | Some (b, a) =>
      url = b +:+ (":" +:+ k) +:+ a
      ∧ Js.replace url (":" +:+ k) (Js.encodeURIComponent v)
        = b +:+ Js.encodeURIComponent v +:+ a
      ∧ ∀ b' a', url = b' +:+ (":" +:+ k) +:+ a' →
                 (String.length b ≤ String.length b')%nat
  | None =>
      Js.replace url (":" +:+ k) (Js.encodeURIComponent v) = url
      ∧ ∀ b a, url ≠ b +:+ (":" +:+ k) +:+ a
  end.
Proof.
  unfold Js.replace. destruct (Js.split_at (":" +:+ k) url) as [[b a]|] eqn:E.
  - destruct (split_at_Some _ _ _ _ E) as [Hurl Hmin].
    split; [exact Hurl|]. split; [|exact Hmin].
    rewrite GetSubstitution_plain by apply encodeURIComponent_dollar_free.
    reflexivity.
  - split; [reflexivity|]. exact (split_at_None _ _ E).
Qed.

(** The claim as the specification states it fails: in
    [/a/:idx/b/:id] with the params [{id: 1, idx: 2}] the text [:id] is
    first met inside [:idx], and [:id] is left in the result. *)
Lemma tokens_not_all_replaced :
  placeholders "/a/:idx/b/:id" = ["idx"; "id"]
  ∧ interpolate "/a/:idx/b/:id" [("id", "1"); ("idx", "2")] = "/a/1x/b/:id"
  ∧ placeholders "/a/1x/b/:id" = ["id"]
  ∧ ¬ tokens_all_replaced.
Proof.
  split; [reflexivity|]. split; [reflexivity|]. split; [reflexivity|].
  intros H.
  specialize (H "/a/:idx/b/:id" [("id", "1"); ("idx", "2")]).
  assert (Hnd : NoDup [("id", "1"); ("idx", "2")].*1).
  { cbn. apply (bool_decide_unpack _). vm_compute. exact I. }
  assert (Hkeys : ∀ n, n ∈ placeholders "/a/:idx/b/:id"
                       ↔ n ∈ [("id", "1"); ("idx", "2")].*1).
  { intros n. change (n ∈ ["idx"; "id"] ↔ n ∈ ["id"; "idx"]).
    rewrite !elem_of_cons, !elem_of_nil. tauto. }
  specialize (H Hnd Hkeys). vm_compute in H. discriminate.
Qed.

(** C4 (amended).  The loop makes one [replace] per pair, in the order of
    the entries, on the URL built so far; a [replace] writes the encoded
    value over the first occurrence of [:<name>] and changes nothing when
    there is none.  On a template in which no placeholder name begins
    with another, and with keys that meet a placeholder only under its
    own name, the result is the template with the value of every
    placeholder that has a param in its place: a placeholder with no
    param is left as it is, a key that names no placeholder changes
    nothing, and when the keys are the placeholders no colon, and so no
    placeholder, is left. *)
Theorem path_interpolation (template : string) (entries : list (string * string)) :
  (∀ k v,
     interpolate template (entries ++ [(k, v)])
     = Js.replace (interpolate template entries) (":" +:+ k)
         (Js.encodeURIComponent v))
  ∧ (∀ url k v,
       (occurs (":" +:+ k) url = false →
        Js.replace url (":" +:+ k) (Js.encodeURIComponent v) = url)
       ∧ (∀ b a, Js.split_at (":" +:+ k) url = Some (b, a) →
            url = b +:+ (":" +:+ k) +:+ a
            ∧ Js.replace url (":" +:+ k) (Js.encodeURIComponent v)
              = b +:+ Js.encodeURIComponent v +:+ a
            ∧ ∀ b' a', url = b' +:+ (":" +:+ k) +:+ a' →
                       (String.length b ≤ String.length b')%nat))
  ∧ (well_formed template = true →
     compatible entries.*1 (placeholders template) = true →
     interpolate template entries = render (fill entries (parse template))
     ∧ ∀ n, n ∈ placeholders template → n ∉ entries.*1 →
            occurs (":" +:+ n) (interpolate template entries) = true)
  ∧ (well_formed template = true →
     (∀ n, n ∈ placeholders template ↔ n ∈ entries.*1) →
     colon_free (interpolate template entries) = true
     ∧ placeholders (interpolate template entries) = []).
Proof.
  assert (Hfill : well_formed template = true →
                  compatible entries.*1 (placeholders template) = true →
                  interpolate template entries
                  = render (fill entries (parse template))).
  { intros Hwf Hc. rewrite <- (render_parse template) at 1.
    apply interpolate_render; assumption. }
  split; [intros k v; apply interpolate_snoc|].
  split; [|split].
  - intros url k v. pose proof (replace_token url k v) as H. unfold occurs.
    destruct (Js.split_at (":" +:+ k) url) as [[b a]|].
    + split; [discriminate|]. intros b0 a0 [= <- <-]. exact H.
    + split; [intros _; apply H | discriminate].
  - intros Hwf Hc. split; [apply Hfill; assumption|].
    intros n Hn Hne. rewrite Hfill by assumption.
    apply occurs_render, fill_keeps; [apply hole_elem, Hn | exact Hne].
  - intros Hwf Hkeys.
    assert (Hcf : colon_free (interpolate template entries) = true).
    { pose proof Hwf as Hwf'. unfold well_formed, wf_pieces in Hwf'.
      apply andb_true_iff in Hwf' as [Hcf Hpf].
      rewrite Hfill; [| exact Hwf |].
      - apply render_colon_free; [apply fill_colon_free, Hcf|].
        apply holes_fill_all. intros n Hn. apply Hkeys, Hn.
      - apply compatible_of_names; [exact Hpf|].
        intros k Hk. apply Hkeys, Hk. }
    split; [exact Hcf | apply placeholders_colon_free, Hcf].
Qed.

Lemma path_interpolation_witness :
  let template := path retrieveApplication in
  let entries := [("application", "a/b"); ("opportunity", "abc 123")] in
  well_formed template = true
  ∧ (∀ n, n ∈ placeholders template ↔ n ∈ entries.*1)
  ∧ interpolate template entries = "/opportunities/abc%20123/applications/a%2Fb"
  ∧ colon_free (interpolate template entries) = true
  ∧ placeholders (interpolate template entries) = [].
Proof.
  cbv zeta.
  assert (Hkeys : ∀ n, n ∈ placeholders (path retrieveApplication)
                       ↔ n ∈ [("application", "a/b");
                              ("opportunity", "abc 123")].*1).
  { intros n.
    change (n ∈ ["opportunity"; "application"]
            ↔ n ∈ ["application"; "opportunity"]).
    rewrite !elem_of_cons, !elem_of_nil. tauto. }
  split; [reflexivity|]. split; [exact Hkeys|]. split; [reflexivity|].
  exact (proj2 (proj2 (proj2
           (path_interpolation (path retrieveApplication)
              [("application", "a/b"); ("opportunity", "abc 123")])))
           eq_refl Hkeys).
Defined.

(** The same text twice in a template is as the first case: one
    [replace] fills one of them. *)
Example second_occurrence_stays :
  interpolate "/a/:x/b/:x" [("x", "1")] = "/a/1/b/:x".
Proof. reflexivity. Qed.

Example prefix_key_not_ignored :
  interpolate "/opportunities/:opportunity" [("opp", "x")]
  = "/opportunities/xortunity".
Proof. reflexivity. Qed.

Example spec_round_trip :
  interpolate "/opportunities/:opportunity" [("opportunity", "abc 123")]
  = "/opportunities/abc%20123".
Proof. reflexivity. Qed.

(** Every template of [src/index.ts] is well formed. *)
Example index_ts_paths_well_formed :
  forallb well_formed index_ts_paths = true.
Proof. reflexivity. Qed.

(** ** The Basic credential *)

Lemma below_64 (P : N → Prop) :
  (∀ k : nat, (k < 64)%nat → P (N.of_nat k)) → ∀ n, n < 64 → P n.
Proof.
  intros H n Hn. rewrite <- (N2Nat.id n). apply H. lia.
Qed.

Lemma b64_index_b64 n : n < 64 → Js.b64_index (Js.b64 n) = Some n.
Proof.
  revert n. apply below_64. intros k Hk.
  do 64 (destruct k as [|k]; [reflexivity|]). lia.
Qed.

Lemma b64_not_pad n : n < 64 → Ascii.eqb (Js.b64 n) "=" = false.
Proof.
  revert n. apply below_64. intros k Hk.
  do 64 (destruct k as [|k]; [reflexivity|]). lia.
Qed.

Lemma code_bounded c : Js.code c < 256.
Proof. apply N_ascii_bounded. Qed.

Lemma byte_code c n : n = Js.code c → Js.byte n = c.
Proof. intros ->. apply ascii_N_embedding. Qed.

Lemma atob_str4 a b c d r :
  Js.atob (Js.str4 a b c d r)
  = match Js.b64_index a, Js.b64_index b with
    | Some p, Some q =>
        if Ascii.eqb c "=" then
          if Ascii.eqb d "=" then
            match r with
            | EmptyString => Some (String (Js.byte (p * 4 + q / 16)) "")
            | _ => None
            end
          else None
        else
          match Js.b64_index c with
          | Some u =>
              if Ascii.eqb d "=" then
                match r with
                | EmptyString =>
                    Some (String (Js.byte (p * 4 + q / 16))
                            (String (Js.byte (q mod 16 * 16 + u / 4)) ""))
                | _ => None
                end
              else
                match Js.b64_index d, Js.atob r with
                | Some v, Some t =>
                    Some (String (Js.byte (p * 4 + q / 16))
                            (String (Js.byte (q mod 16 * 16 + u / 4))
                               (String (Js.byte (u mod 4 * 64 + v)) t)))
                | _, _ => None
                end
          | None => None
          end
    | _, _ => None
    end.
Proof. reflexivity. Qed.

Lemma btoa_3 x y z r :
  Js.btoa (String x (String y (String z r)))
  = Js.str4 (Js.b64 (Js.code x / 4))
      (Js.b64 (Js.code x mod 4 * 16 + Js.code y / 16))
      (Js.b64 (Js.code y mod 16 * 4 + Js.code z / 64))
      (Js.b64 (Js.code z mod 64)) (Js.btoa r).
Proof. reflexivity. Qed.

(** [atob] reads back what [btoa] wrote. *)
Lemma atob_btoa s : Js.atob (Js.btoa s) = Some s.
Proof.
  assert (H : ∀ n s, (String.length s ≤ n)%nat → Js.atob (Js.btoa s) = Some s).
  { clear s. induction n as [|n IH]; intros s Hlen.
    - destruct s; [reflexivity | cbn in Hlen; lia].
    - destruct s as [|x [|y [|z r]]]; [reflexivity | | |].
      + pose proof (code_bounded x) as Hx. cbn [Js.btoa].
        rewrite atob_str4, !b64_index_b64 by div_mod_lia. cbn [Ascii.eqb].
        change (Ascii.eqb "=" "=") with true. cbn iota.
        do 2 f_equal. apply byte_code. div_mod_lia.
      + pose proof (code_bounded x) as Hx. pose proof (code_bounded y) as Hy.
        cbn [Js.btoa].
        rewrite atob_str4, !b64_index_b64, b64_not_pad by div_mod_lia.
        change (Ascii.eqb "=" "=") with true. cbn iota.
        f_equal. f_equal; [apply byte_code; div_mod_lia|].
        f_equal. apply byte_code. div_mod_lia.
      + pose proof (code_bounded x) as Hx. pose proof (code_bounded y) as Hy.
        pose proof (code_bounded z) as Hz.
        rewrite btoa_3, atob_str4, !b64_index_b64, !b64_not_pad by div_mod_lia.
        rewrite IH by (cbn in Hlen; lia).
        f_equal. f_equal; [apply byte_code; div_mod_lia|].
        f_equal; [apply byte_code; div_mod_lia|].
        f_equal. apply byte_code. div_mod_lia. }
  apply (H (String.length s)). lia.
Qed.

Lemma split_colon_end s :
  colon_free s = true → Js.split_at ":" (s +:+ ":") = Some (s, "").
Proof.
  intros Hs. rewrite (split_at_skip "" s ":" Hs).
  cbn. rewrite str_app_empty_r. reflexivity.
Qed.

(** With no headers object in the override, the header of the request
    decodes to the credential, a colon, and nothing after it. *)
Lemma ts_authorization_decodes W (fetch : Fetch W) cfg apiKey ps q b init (w : W) :
  ri_headers init = None →
  ∃ token,
    (req_headers <$>
       the_request (Ts.createEndpoint fetch cfg apiKey
                      {| params := Some ps; query := Some q; body := b |} init w))
      ≫= (.!! "Authorization")
    = Some ("Basic " +:+ token)
    ∧ Js.atob token = Some (apiKey +:+ ":")
    ∧ (colon_free apiKey = true →
       Js.split_at ":" (apiKey +:+ ":") = Some (apiKey, "")).
Proof.
  intros Hh. exists (Js.btoa (apiKey +:+ ":")).
  split; [apply ts_authorization_default, Hh|].
  split; [apply atob_btoa | apply split_colon_end].
Qed.

Example parse_query_example :
  parse_query "limit=50&expand=a+b%26c&name=%C3%A9"
  = [("limit", "50"); ("expand", "a b&c"); ("name", String (Js.byte 233) "")].
Proof. reflexivity. Qed.

(** ** The query string read back *)








Lemma form_encode_avoids c0 s :
  Js.form_unreserved c0 = false → Js.uri_unreserved c0 = false →
  c0 ≠ "%"%char → c0 ≠ "+"%char →
  Js.in_string c0 (Js.form_encode s) = false.
Proof.
  intros Hf Hu Hp Hplus. induction s as [|c s IH]; [reflexivity|].
  cbn [Js.form_encode]. rewrite in_string_app, IH, orb_false_r.
  unfold Js.form_unit. destruct (Ascii.eqb c " ").
  - cbn [Js.in_string]. destruct (Ascii.eqb_spec c0 "+"); [contradiction | reflexivity].
  - destruct (Js.form_unreserved c) eqn:Hc.
    + cbn [Js.in_string]. destruct (Ascii.eqb_spec c0 c) as [->|]; [congruence | reflexivity].
    + unfold Js.utf8. destruct (Js.code c <? 128);
        cbn [map Js.concat_str]; rewrite ?in_string_app, !pct_avoids by assumption;
        reflexivity.
Qed.







Example index_ts_endpoints_rows : forallb row_ok index_ts_endpoints = true.
Proof. vm_compute. reflexivity. Qed.

(** ** The outcome of a call, by status *)

(** In [src/index.ts], for a call that reaches [fetch]: a rejection of
    [fetch] is the rejection of the call; a response with a status in
    [200,299] gives what [res.json()] gives, a SyntaxError when the body
    does not parse; any other status gives an [Error] whose message is
    [HTTP <status>: <statusText>]. *)
Theorem ts_outcome_by_status W (fetch : Fetch W) cfg apiKey ps q b init (w : W) :
  let r := Ts.createEndpoint fetch cfg apiKey
             {| params := Some ps; query := Some q; body := b |} init w in
  ∃ c, the_request r = Some c
     ∧ (∀ e, (fetch w (fc_url c) (fc_init c)).2 = inl e → r.2 = inl e)
     ∧ (∀ res, (fetch w (fc_url c) (fc_init c)).2 = inr res →
          ((200 ≤ status res ≤ 299)%Z →
           r.2 = match res_json res with
                 | Some v => inr v
                 | None => inl SyntaxError
                 end)
          ∧ (¬ (200 ≤ status res ≤ 299)%Z →
             r.2 = inl (JsError ("HTTP " +:+ Js.Z_to_string (status res)
                                   +:+ ": " +:+ statusText res)))).
Proof.
  cbv zeta.
  destruct (ts_response_interpretation W fetch cfg apiKey ps q b init w)
    as (c & Hc & Hr).
  exists c. split; [exact Hc|]. rewrite Hr. split.
  - intros e ->. reflexivity.
  - intros res ->. split; intros Hs.
    + apply ok_spec in Hs. rewrite Hs. reflexivity.
    + destruct (ok res) eqn:Hok; [|reflexivity].
      apply ok_spec in Hok. contradiction.
Qed.

(** In the second build, for every payload: the same, except that the
    message of the [Error] begins with the method and the URL that was
    fetched. *)
Theorem build2_outcome_by_status W (fetch : Fetch W) cfg apiKey data init (w : W) :
  let r := Build2.createEndpoint fetch cfg apiKey data init w in
  ∃ c, the_request r = Some c
     ∧ (∀ e, (fetch w (fc_url c) (fc_init c)).2 = inl e → r.2 = inl e)
     ∧ (∀ res, (fetch w (fc_url c) (fc_init c)).2 = inr res →
          ((200 ≤ status res ≤ 299)%Z →
           r.2 = match res_json res with
                 | Some v => inr v
                 | None => inl SyntaxError
                 end)
          ∧ (¬ (200 ≤ status res ≤ 299)%Z →
             r.2 = inl (JsError (method_name (method cfg) +:+ " "
                                   +:+ fc_url c +:+ " HTTP "
                                   +:+ Js.Z_to_string (status res)
                                   +:+ ": " +:+ statusText res)))).
Proof.
  cbv zeta.
  destruct (build2_response_interpretation W fetch cfg apiKey data init w)
    as (c & Hc & Hr).
  exists c. split; [exact Hc|]. rewrite Hr. split.
  - intros e ->. reflexivity.
  - intros res ->. split; intros Hs.
    + apply ok_spec in Hs. rewrite Hs. reflexivity.
    + destruct (ok res) eqn:Hok; [|reflexivity].
      apply ok_spec in Hok. contradiction.
Qed.

(** ** The request of the second build *)

Lemma spread_other_empty (o : gmap string string) : o ∪ (∅ ∪ ∅) = o.
Proof. rewrite (left_id_L ∅ (∪)), (right_id_L ∅ (∪)). reflexivity. Qed.

Lemma build2_env W (fetch : Fetch W) cfg apiKey data init (w : W) :
  let url := full_url (interpolate (path cfg) (default [] (params data)))
               (query_string (default [] (query data))) in
  let opts :=
    spread
      (spread
         {| ri_method := Some (method_name (method cfg));
            ri_headers := Some (merged_headers (method cfg) apiKey init);
            ri_body := None; ri_other := ∅ |}
         (if decide (method cfg = GET) then no_init
          else match body data with
               | None => no_init
               | Some b =>
                   {| ri_method := None; ri_headers := None;
                      ri_body := Some (Js.JSON_stringify b);
                      ri_other := ∅ |}
               end))
      init in
  (Build2.createEndpoint fetch cfg apiKey data init w).1
  = {| config := cfg; net := (fetch w url opts).1;
       sent := [ {| fc_url := url; fc_init := opts |} ] |}.
Proof.
  cbv zeta. run_call.
  destruct (fetch _ _ _) as [w' [e|res]]; cbn [fst snd app]; [reflexivity|].
  destruct (negb (ok res)); cbn [fst]; [reflexivity|].
  destruct (res_json res); reflexivity.
Qed.

(** ** When [src/index.ts] reaches [fetch], and with what *)

(** On strings of code units below 256, where [btoa] and
    [encodeURIComponent] do not throw: [src/index.ts] calls [fetch]
    exactly when the payload gives an object both for [params] and for
    [query].  With either missing (or [undefined]) the call throws the
    TypeError of [Object.entries] and makes no request; with both it
    makes exactly one, and the descriptor is as it was. *)
Theorem ts_fetch_needs_params_and_query W (fetch : Fetch W) cfg apiKey data init
    (w : W) :
  let r := Ts.createEndpoint fetch cfg apiKey data init w in
  (params data = None ∨ query data = None →
   r = ({| config := cfg; net := w; sent := [] |}, inl entries_TypeError))
  ∧ (is_Some (params data) → is_Some (query data) →
     ∃ c, sent r.1 = [c] ∧ config r.1 = cfg).
Proof.
  cbv zeta. split.
  - destruct data as [[ps|] [q|] b]; cbn [params query];
      intros [H|H]; try discriminate; reflexivity.
  - intros [ps Hps] [q Hq]. destruct data as [ps' q' b].
    cbn [params query] in Hps, Hq. subst ps' q'.
    rewrite ts_sent. eexists. split; [reflexivity|].
    unfold Ts.createEndpoint. rewrite ts_call_unfold. cbv zeta.
    cbn [config net sent].
    destruct (fetch _ _ _).2 as [e|res]; [|destruct (ok res)]; reflexivity.
Qed.

Lemma default_headers_lookup m apiKey key :
  default_headers m apiKey !! key
  = if decide (key = "Authorization")
    then Some ("Basic " +:+ Js.btoa (apiKey +:+ ":"))
    else if decide (key = "Content-Type" ∧ m ≠ GET)
         then Some "application/json"
         else None.
Proof.
  unfold default_headers.
  destruct (decide (key = "Authorization")) as [->|Hk].
  - destruct (decide (m ≠ GET)).
    + rewrite lookup_insert_ne by discriminate. apply lookup_singleton_eq.
    + apply lookup_singleton_eq.
  - destruct (decide (m ≠ GET)) as [Hm|Hm].
    + destruct (decide (key = "Content-Type")) as [->|Hc].
      * rewrite lookup_insert_eq.
        destruct (decide ("Content-Type" = "Content-Type" ∧ m ≠ GET));
          [reflexivity | tauto].
      * rewrite lookup_insert_ne by congruence.
        rewrite lookup_singleton_ne by congruence.
        destruct (decide (key = "Content-Type" ∧ m ≠ GET)); [tauto | reflexivity].
    + rewrite lookup_singleton_ne by congruence.
      destruct (decide (key = "Content-Type" ∧ m ≠ GET)); [tauto | reflexivity].
Qed.

(** The headers that [src/index.ts] gives to [fetch], in a call that
    reaches it (strings of code units below 256): when the override has a
    [headers] property that holds an object, that object as it is; when
    the override has no [headers] property, [Authorization] with the
    Basic credential, [Content-Type: application/json] when the method is
    not GET, and no other header. *)
Theorem ts_headers_given_to_fetch W (fetch : Fetch W) cfg apiKey ps q b init
    (w : W) :
  let r := Ts.createEndpoint fetch cfg apiKey
             {| params := Some ps; query := Some q; body := b |} init w in
  ∃ c, the_request r = Some c
     ∧ (∀ h, ri_headers init = Some h → req_headers c = h)
     ∧ (ri_headers init = None →
        ∀ key, req_headers c !! key
               = if decide (key = "Authorization")
                 then Some ("Basic " +:+ Js.btoa (apiKey +:+ ":"))
                 else if decide (key = "Content-Type" ∧ method cfg ≠ GET)
                      then Some "application/json"
                      else None).
Proof.
  cbv zeta.
  pose proof (ts_request_headers W fetch cfg apiKey ps q b init w) as H.
  destruct (the_request _) as [c|]; [|discriminate].
  cbn [fmap option_fmap option_map] in H. injection H as H.
  exists c. split; [reflexivity|]. rewrite H. split.
  - intros h ->. reflexivity.
  - intros -> key. apply default_headers_lookup.
Qed.

(** When the override has no [headers] property and the credential is
    made of code units below 256, the [Authorization] header that
    [src/index.ts] sends is [Basic] and a token that [atob] reads back as
    the credential followed by one colon; cut at the colon it gives the
    credential and an empty password, when the credential has no colon
    of its own. *)
Theorem ts_basic_credential_decodes W (fetch : Fetch W) cfg apiKey ps q b init
    (w : W) (Hinit : ri_headers init = None) :
  ∃ c token,
    the_request (Ts.createEndpoint fetch cfg apiKey
                   {| params := Some ps; query := Some q; body := b |} init w)
    = Some c
    ∧ req_headers c !! "Authorization" = Some ("Basic " +:+ token)
    ∧ Js.atob token = Some (apiKey +:+ ":")
    ∧ (colon_free apiKey = true →
       Js.split_at ":" (apiKey +:+ ":") = Some (apiKey, "")).
Proof.
  pose proof (ts_authorization_default W fetch cfg apiKey ps q b init w Hinit) as H.
  destruct (the_request _) as [c|]; [|discriminate].
  cbn [fmap option_fmap option_map mbind option_bind] in H.
  exists c, (Js.btoa (apiKey +:+ ":")). split; [reflexivity|].
  split; [exact H|]. split; [apply atob_btoa | apply split_colon_end].
Qed.

Lemma ts_basic_credential_decodes_witness :
  ri_headers no_init = None
  ∧ ∃ c token,
      the_request (Ts.createEndpoint (answer (res_ok Js.JNull)) retrieveOpportunity
                     "key"
                     {| params := Some [("opportunity", "op1")];
                        query := Some []; body := None |} no_init tt)
      = Some c
      ∧ req_headers c !! "Authorization" = Some ("Basic " +:+ token)
      ∧ Js.atob token = Some ("key" +:+ ":")
      ∧ (colon_free "key" = true →
         Js.split_at ":" ("key" +:+ ":") = Some ("key", "")).
Proof.
  split; [reflexivity|].
  exact (ts_basic_credential_decodes unit (answer (res_ok Js.JNull))
           retrieveOpportunity "key" [("opportunity", "op1")] [] None no_init tt
           eq_refl).
Defined.

(** The method that [src/index.ts] gives to [fetch] is the descriptor's
    unless the override names one, and every other option of the override
    (a signal, a cache mode, ...) reaches [fetch] as the caller gave it. *)
Theorem ts_method_and_options W (fetch : Fetch W) cfg apiKey ps q b init (w : W) :
  let r := Ts.createEndpoint fetch cfg apiKey
             {| params := Some ps; query := Some q; body := b |} init w in
  ∃ c, the_request r = Some c
     ∧ ri_method (fc_init c)
       = Some (default (method_name (method cfg)) (ri_method init))
     ∧ ri_other (fc_init c) = ri_other init.
Proof.
  cbv zeta. unfold the_request. rewrite ts_sent. eexists.
  split; [reflexivity|]. cbn [fc_init]. split.
  - destruct (decide (method cfg = GET));
      cbn [spread ri_method no_init override];
      destruct (ri_method init); reflexivity.
  - destruct (decide (method cfg = GET));
      cbn [spread ri_other no_init]; apply spread_other_empty.
Qed.

(** ** The two builds side by side *)

(** On a payload that has [params] and [query], [src/index.ts] and the
    second build call [fetch] with the same URL and the same options and
    leave the same environment; they return the same value or error,
    except after a response whose status is not in [200,299], where the
    message of the second build is the method, the URL and the message
    of [src/index.ts]. *)
Theorem build2_agrees_with_ts W (fetch : Fetch W) cfg apiKey ps q b init (w : W) :
  let data := {| params := Some ps; query := Some q; body := b |} in
  let t := Ts.createEndpoint fetch cfg apiKey data init w in
  let s := Build2.createEndpoint fetch cfg apiKey data init w in
  t.1 = s.1
  ∧ ∃ c, the_request t = Some c
       ∧ match (fetch w (fc_url c) (fc_init c)).2 with
         | inl _ => t.2 = s.2
         | inr res =>
             if ok res then t.2 = s.2
             else ∃ msg,
                 t.2 = inl (JsError msg)
                 ∧ s.2 = inl (JsError (method_name (method cfg) +:+ " "
                                         +:+ fc_url c +:+ " " +:+ msg))
         end.
Proof.
  cbv zeta.
  assert (Hopts :
    (if decide (method cfg = GET) then no_init
     else {| ri_method := None; ri_headers := None;
             ri_body := Js.JSON_stringify <$> b; ri_other := ∅ |})
    = (if decide (method cfg = GET) then no_init
       else match b with
            | None => no_init
            | Some b0 =>
                {| ri_method := None; ri_headers := None;
                   ri_body := Some (Js.JSON_stringify b0); ri_other := ∅ |}
            end)).
  { destruct (decide (method cfg = GET)); [reflexivity|].
    destruct b; reflexivity. }
  unfold Ts.createEndpoint, the_request. rewrite ts_call_unfold. cbv zeta.
  cbn [config net sent]. rewrite Hopts.
  run_call. cbn [default].
  destruct (fetch _ _ _) as [w' [e|res]] eqn:E; cbn [fst snd app].
  - split; [reflexivity|]. eexists. split; [reflexivity|].
    cbn [fc_url fc_init]. rewrite E. reflexivity.
  - destruct (ok res) eqn:Hok; cbn [negb fst snd].
    + destruct (res_json res) eqn:J; cbn [fst snd];
        (split; [reflexivity|]; eexists; split; [reflexivity|];
         cbn [fc_url fc_init]; rewrite E; cbn [snd]; rewrite Hok; reflexivity).
    + split; [reflexivity|]. eexists. split; [reflexivity|].
      cbn [fc_url fc_init]. rewrite E. cbn [snd]. rewrite Hok.
      eexists. split; reflexivity.
Qed.

(** ** What a param value cannot do to the path *)

Lemma count_char_app c (s t : string) :
  count_char c (s +:+ t) = (count_char c s + count_char c t)%nat.
Proof.
  induction s as [|d s IH]; [reflexivity|].
  cbn [String.append count_char]. rewrite IH. lia.
Qed.

Lemma count_char_absent c s : Js.in_string c s = false → count_char c s = 0%nat.
Proof.
  induction s as [|d s IH]; [reflexivity|].
  cbn [Js.in_string count_char]. intros H. apply orb_false_iff in H as [Hd Hs].
  rewrite Hd, IH by exact Hs. reflexivity.
Qed.

Lemma replace_count c url pat rep :
  Js.in_string c pat = false → Js.in_string c rep = false →
  dollar_free rep = true →
  count_char c (Js.replace url pat rep) = count_char c url.
Proof.
  intros Hpat Hrep Hd. unfold Js.replace.
  destruct (Js.split_at pat url) as [[b a]|] eqn:E; [|reflexivity].
  destruct (split_at_Some _ _ _ _ E) as [-> _].
  rewrite GetSubstitution_plain by exact Hd.
  rewrite !count_char_app, (count_char_absent c pat Hpat),
    (count_char_absent c rep Hrep). reflexivity.
Qed.

Lemma interpolate_count (c : ascii) (template : string)
    (entries : list (string * string)) :
  Js.uri_unreserved c = false → c ≠ "%"%char → c ≠ ":"%char →
  (∀ k, k ∈ entries.*1 → Js.in_string c k = false) →
  count_char c (interpolate template entries) = count_char c template.
Proof.
  intros Hc Hpct Hcolon. revert template.
  induction entries as [|[k v] es IH]; intros template Hkeys.
  - reflexivity.
  - rewrite interpolate_cons, IH.
    + apply replace_count.
      * cbn [Js.in_string]. rewrite Hkeys by left.
        destruct (Ascii.eqb_spec c ":"); [contradiction | reflexivity].
      * apply encodeURIComponent_avoids; assumption.
      * apply encodeURIComponent_dollar_free.
    + intros k' Hk'. apply Hkeys. right. exact Hk'.
Qed.

(** A character that [encodeURIComponent] escapes, other than the colon
    and the percent sign, comes in the interpolated path exactly as often
    as in the template, whatever the values are, when no key holds it:
    a value adds no [/], no [?], no [#] to the path. *)
Theorem interpolate_preserves_count (c : ascii) (template : string)
    (entries : list (string * string))
    (Hc : Js.uri_unreserved c = false)
    (Hpct : c ≠ "%"%char) (Hcolon : c ≠ ":"%char)
    (Hkeys : ∀ k, k ∈ entries.*1 → Js.in_string c k = false) :
  count_char c (interpolate template entries) = count_char c template.
Proof. apply interpolate_count; assumption. Qed.

Lemma interpolate_preserves_count_witness :
  Js.uri_unreserved "/" = false
  ∧ count_char "/" (interpolate (path retrieveApplication)
                      [("opportunity", "a/b?c#d"); ("application", "../x")])
    = count_char "/" (path retrieveApplication)
  ∧ interpolate (path retrieveApplication)
      [("opportunity", "a/b?c#d"); ("application", "../x")]
    = "/opportunities/a%2Fb%3Fc%23d/applications/..%2Fx".
Proof.
  split; [reflexivity|]. split; [|reflexivity].
  apply (interpolate_preserves_count "/" (path retrieveApplication)
           [("opportunity", "a/b?c#d"); ("application", "../x")]).
  - reflexivity.
  - discriminate.
  - discriminate.
  - intros k Hk. cbn in Hk.
    apply elem_of_cons in Hk as [->|Hk]; [reflexivity|].
    apply elem_of_cons in Hk as [->|Hk]; [reflexivity|].
    apply elem_of_nil in Hk as [].
Defined.

(** ** The order of the params *)

Lemma assoc_Some k v (es : list (string * string)) :
  NoDup es.*1 → assoc k es = Some v ↔ (k, v) ∈ es.
Proof.
  induction es as [|[k' v'] es IH]; cbn [assoc fmap list_fmap fst]; intros Hnd.
  - split; [discriminate | intros H; apply elem_of_nil in H as []].
  - apply NoDup_cons in Hnd as [Hk' Hnd]. rewrite elem_of_cons.
    destruct (String.eqb_spec k' k) as [->|Hne].
    + split.
      * intros [= ->]. left. reflexivity.
      * intros [[= ->]|Hin]; [reflexivity|].
        exfalso. apply Hk'. apply (list_elem_of_fmap_2 fst) in Hin. exact Hin.
    + rewrite (IH Hnd). split; [intros H; right; exact H|].
      intros [[= -> ->]|Hin]; [contradiction | exact Hin].
Qed.

Lemma assoc_perm k (es es' : list (string * string)) :
  NoDup es.*1 → es ≡ₚ es' → assoc k es = assoc k es'.
Proof.
  intros Hnd Hp.
  assert (Hnd' : NoDup es'.*1) by (rewrite <- Hp; exact Hnd).
  destruct (assoc k es) as [v|] eqn:E.
  - symmetry. apply (assoc_Some k v es' Hnd'). rewrite <- Hp.
    apply (assoc_Some k v es Hnd), E.
  - destruct (assoc k es') as [v'|] eqn:E'; [|reflexivity].
    apply (assoc_Some k v' es' Hnd') in E'. rewrite <- Hp in E'.
    apply (assoc_Some k v' es Hnd) in E'. congruence.
Qed.

Lemma compatible_perm keys keys' names :
  keys ≡ₚ keys' → compatible keys names = true → compatible keys' names = true.
Proof.
  unfold compatible. intros Hp H. apply forallb_forall. intros k Hk.
  rewrite forallb_forall in H. apply H.
  apply list_elem_of_In. rewrite Hp. apply list_elem_of_In, Hk.
Qed.

(** On a well-formed template, with keys that meet a placeholder only
    under its own name, the interpolated path does not depend on the
    order in which the params object lists its keys. *)
Theorem interpolate_order_irrelevant (template : string)
    (es es' : list (string * string))
    (Hwf : well_formed template = true)
    (Hc : compatible es.*1 (placeholders template) = true)
    (Hnd : NoDup es.*1)
    (Hp : es ≡ₚ es') :
  interpolate template es = interpolate template es'.
Proof.
  assert (Hc' : compatible es'.*1 (placeholders template) = true).
  { apply (compatible_perm es.*1); [rewrite Hp; reflexivity | exact Hc]. }
  rewrite <- (render_parse template).
  rewrite (interpolate_render es (parse template) Hwf Hc).
  rewrite (interpolate_render es' (parse template) Hwf Hc').
  f_equal. unfold fill. apply map_ext. intros [s|n]; [reflexivity|].
  cbn [fill_piece]. rewrite (assoc_perm n es es' Hnd Hp). reflexivity.
Qed.

Lemma interpolate_order_irrelevant_witness :
  well_formed (path retrieveApplication) = true
  ∧ interpolate (path retrieveApplication)
      [("opportunity", "o 1"); ("application", "a/2")]
    = interpolate (path retrieveApplication)
        [("application", "a/2"); ("opportunity", "o 1")].
Proof.
  split; [reflexivity|].
  apply (interpolate_order_irrelevant (path retrieveApplication)
           [("opportunity", "o 1"); ("application", "a/2")]
           [("application", "a/2"); ("opportunity", "o 1")]).
  - reflexivity.
  - reflexivity.
  - cbn. apply (bool_decide_unpack _). vm_compute. exact I.
  - apply Permutation_swap.
Defined.

(** Without that condition the order shows. *)
Example interpolate_order_shows :
  interpolate "/a/:idx/b/:id" [("idx", "2"); ("id", "1")] = "/a/2/b/1"
  ∧ interpolate "/a/:idx/b/:id" [("id", "1"); ("idx", "2")] = "/a/1x/b/:id".
Proof. split; reflexivity. Qed.

(** ** The exported endpoints *)

Lemma interpolate_all_filled template (es : list (string * string)) :
  well_formed template = true →
  (∀ n, n ∈ placeholders template ↔ n ∈ es.*1) →
  interpolate template es = render (fill es (parse template))
  ∧ colon_free (interpolate template es) = true.
Proof.
  intros Hwf Hkeys. pose proof Hwf as Hwf'. unfold well_formed, wf_pieces in Hwf'.
  apply andb_true_iff in Hwf' as [Hcf Hpf].
  assert (Hfill : interpolate template es = render (fill es (parse template))).
  { rewrite <- (render_parse template) at 1. apply interpolate_render; [exact Hwf|].
    apply compatible_of_names; [exact Hpf|]. intros k Hk. apply Hkeys, Hk. }
  split; [exact Hfill|]. rewrite Hfill.
  apply render_colon_free; [apply fill_colon_free, Hcf|].
  apply holes_fill_all. intros n Hn. apply Hkeys, Hn.
Qed.

(** For every endpoint that [src/index.ts] exports, the placeholders of
    the path are the keys of the type declared for its params, and a
    params object with exactly these keys, in any order and with any
    values, fills every placeholder: the interpolated path is the
    template with the encoded values in place, and no colon is left. *)
Theorem index_ts_endpoints_filled (name : string) (cfg : Endpoint)
    (keys : list string) (entries : list (string * string))
    (Hrow : (name, cfg, keys) ∈ index_ts_endpoints)
    (Hkeys : ∀ n, n ∈ keys ↔ n ∈ entries.*1) :
  placeholders (path cfg) = keys
  ∧ interpolate (path cfg) entries = render (fill entries (parse (path cfg)))
  ∧ colon_free (interpolate (path cfg) entries) = true
  ∧ placeholders (interpolate (path cfg) entries) = [].
Proof.
  assert (Hall : forallb row_ok index_ts_endpoints = true)
    by (vm_compute; reflexivity).
  rewrite forallb_forall in Hall. apply list_elem_of_In in Hrow.
  specialize (Hall _ Hrow). unfold row_ok in Hall. cbn [fst snd] in Hall.
  apply andb_true_iff in Hall as [Hwf Hph]. apply bool_decide_eq_true in Hph.
  split; [exact Hph|].
  destruct (interpolate_all_filled (path cfg) entries Hwf) as [Hfill Hcf].
  { intros n. rewrite Hph. apply Hkeys. }
  split; [exact Hfill|]. split; [exact Hcf|].
  apply placeholders_colon_free, Hcf.
Qed.

Lemma index_ts_endpoints_filled_witness :
  let entries := [("note", "n 1"); ("opportunity", "o/1")] in
  interpolate "/opportunities/:opportunity/notes/:note" entries
  = "/opportunities/o%2F1/notes/n%201"
  ∧ colon_free (interpolate "/opportunities/:opportunity/notes/:note" entries)
    = true.
Proof.
  cbv zeta. split; [reflexivity|].
  refine (proj1 (proj2 (proj2
            (index_ts_endpoints_filled "updateNote"
               {| method := PUT; path := "/opportunities/:opportunity/notes/:note" |}
               ["opportunity"; "note"]
               [("note", "n 1"); ("opportunity", "o/1")] _ _)))).
  - do 12 right. left.
  - intros n. change ([("note", "n 1"); ("opportunity", "o/1")].*1)
      with ["note"; "opportunity"].
    rewrite !elem_of_cons, !elem_of_nil. tauto.
Defined.

(** ** The same call twice *)

Lemma ts_env W (fetch : Fetch W) apiKey ps q b init (s : Env W) :
  let url := full_url (interpolate (path (config s)) ps) (query_string q) in
  let opts :=
    spread
      (spread
         {| ri_method := Some (method_name (method (config s)));
            ri_headers := Some (merged_headers (method (config s)) apiKey init);
            ri_body := None; ri_other := ∅ |}
         (if decide (method (config s) = GET) then no_init
          else {| ri_method := None; ri_headers := None;
                  ri_body := Js.JSON_stringify <$> b; ri_other := ∅ |}))
      init in
  (Ts.call fetch apiKey {| params := Some ps; query := Some q; body := b |}
     init s).1
  = {| config := config s; net := (fetch (net s) url opts).1;
       sent := sent s ++ [ {| fc_url := url; fc_init := opts |} ] |}.
Proof.
  cbv zeta. rewrite ts_call_unfold. cbv zeta.
  destruct (fetch _ _ _).2 as [e|res]; [|destruct (ok res)]; reflexivity.
Qed.

(** [src/index.ts] keeps nothing between calls: the same call made a
    second time sends the same request again, and on a network whose
    state the requests do not change it gives the same result. *)
Theorem ts_same_call_twice W (fetch : Fetch W) cfg apiKey ps q b init (w : W) :
  let data := {| params := Some ps; query := Some q; body := b |} in
  let r1 := Ts.createEndpoint fetch cfg apiKey data init w in
  let r2 := Ts.call fetch apiKey data init r1.1 in
  ∃ c, sent r1.1 = [c]
     ∧ sent r2.1 = [c; c]
     ∧ config r2.1 = cfg
     ∧ (stable fetch → r2.2 = r1.2).
Proof.
  cbv zeta. unfold Ts.createEndpoint. rewrite !ts_env. cbv zeta.
  cbn [config net sent app]. eexists.
  split; [reflexivity|]. split; [reflexivity|]. split; [reflexivity|].
  intros Hst. rewrite !ts_call_unfold. cbv zeta. cbn [config net sent].
  rewrite Hst.
  destruct (fetch _ _ _).2 as [e|res]; [|destruct (ok res)]; reflexivity.
Qed.

(** ** The call of the README *)

(** [listApplications(apiKey, {params: {opportunity: oppId},
    query: {limit: 50}})], for every key and every id made of code units
    below 256 (on others [btoa] or [encodeURIComponent] may throw): one
    GET of the applications of the opportunity, the id percent-encoded,
    with [?limit=50], the Basic credential as the only header, and no
    body. *)
Theorem readme_listApplications W (fetch : Fetch W) apiKey oppId (w : W) :
  sent (Ts.createEndpoint fetch listApplications apiKey
          {| params := Some [("opportunity", oppId)];
             query := Some [("limit", Js.PNum 50)]; body := None |}
          no_init w).1
  = [ {| fc_url := "https://api.lever.co/v1/opportunities/"
                     +:+ Js.encodeURIComponent oppId
                     +:+ "/applications?limit=50";
         fc_init :=
           {| ri_method := Some "GET";
              ri_headers :=
                Some {[ "Authorization" := "Basic " +:+ Js.btoa (apiKey +:+ ":") ]};
              ri_body := None; ri_other := ∅ |} |} ].
Proof.
  rewrite ts_sent. f_equal. f_equal.
  change (path listApplications)
    with (render [Lit "/opportunities/"; Hole "opportunity"; Lit "/applications"]).
  rewrite interpolate_render by reflexivity.
  unfold full_url. change (query_string [("limit", Js.PNum 50)]) with "limit=50".
  cbn [truthy]. unfold fill. cbn [map fill_piece assoc].
  change (String.eqb "opportunity" "opportunity") with true. cbn iota.
  unfold render. cbn [map render_piece Js.concat_str].
  rewrite str_app_empty_r. unfold ROOT.
  rewrite !str_app_assoc. reflexivity.
Qed.

(** ** The reserved characters of the URL *)

Lemma form_unreserved_uri c : Js.form_unreserved c = true → Js.uri_unreserved c = true.
Proof.
  unfold Js.form_unreserved, Js.uri_unreserved.
  destruct (Js.is_alnum c); [reflexivity|]. cbn [orb Js.in_string].
  destruct (Ascii.eqb c "*") eqn:E1; [rewrite !orb_true_r; reflexivity|].
  destruct (Ascii.eqb c "-") eqn:E2; [reflexivity|].
  destruct (Ascii.eqb c ".") eqn:E3; [rewrite !orb_true_r; reflexivity|].
  destruct (Ascii.eqb c "_") eqn:E4; [rewrite !orb_true_r; reflexivity|].
  discriminate.
Qed.

Lemma query_string_avoids c q :
  Js.uri_unreserved c = false → Js.in_string c "%:+=&" = false →
  Js.in_string c (query_string q) = false.
Proof.
  intros Hc Hsep. cbn [Js.in_string] in Hsep.
  apply orb_false_iff in Hsep as [Hpct Hsep].
  apply orb_false_iff in Hsep as [_ Hsep].
  apply orb_false_iff in Hsep as [Hplus Hsep].
  apply orb_false_iff in Hsep as [Heq Hsep].
  apply orb_false_iff in Hsep as [Hamp _].
  assert (Hf : Js.form_unreserved c = false).
  { destruct (Js.form_unreserved c) eqn:E; [|reflexivity].
    apply form_unreserved_uri in E. congruence. }
  assert (Hp : c ≠ "%"%char) by (intros ->; discriminate).
  assert (Hp' : c ≠ "+"%char) by (intros ->; discriminate).
  assert (Hpair : ∀ kv, Js.in_string c (Js.form_pair kv) = false).
  { intros kv. unfold Js.form_pair. rewrite !in_string_app.
    rewrite !form_encode_avoids by assumption. cbn [Js.in_string].
    rewrite Heq. reflexivity. }
  unfold query_string, Js.URLSearchParams_toString.
  induction (map _ (List.filter _ q)) as [|kv l IH]; [reflexivity|].
  destruct l as [|kv' l]; [apply Hpair|].
  change (Js.join "&" (map Js.form_pair (kv :: kv' :: l)))
    with (Js.form_pair kv +:+ "&" +:+ Js.join "&" (map Js.form_pair (kv' :: l))).
  rewrite !in_string_app, Hpair, IH. cbn [Js.in_string].
  rewrite Hamp. reflexivity.
Qed.

(** In the URL that [src/index.ts] fetches, a character that both
    encoders escape and that is none of [% : + = &] comes as often as in
    the root and the template together, and once more for [?] when the
    query has a pair to write, whatever the values of the params and the
    keys and values of the query are, when no key of the params holds it:
    no value adds a path segment, a second [?] or a [#]. *)
Theorem ts_url_reserved_count W (fetch : Fetch W) cfg apiKey ps q b init (w : W)
    (c : ascii)
    (Hc : Js.uri_unreserved c = false)
    (Hsep : Js.in_string c "%:+=&" = false)
    (Hkeys : ∀ k, k ∈ ps.*1 → Js.in_string c k = false) :
  ∃ r, the_request (Ts.createEndpoint fetch cfg apiKey
                      {| params := Some ps; query := Some q; body := b |} init w)
       = Some r
     ∧ count_char c (fc_url r)
       = (count_char c ROOT + count_char c (path cfg)
          + (if Ascii.eqb c "?" && negb (bool_decide (query_pairs q = []))
             then 1 else 0))%nat.
Proof.
  unfold the_request. rewrite ts_sent. eexists. split; [reflexivity|].
  cbn [fc_url]. unfold full_url. rewrite !count_char_app.
  pose proof (query_string_avoids c q Hc Hsep) as Hqs.
  pose proof Hsep as Hsep'. cbn [Js.in_string] in Hsep'.
  apply orb_false_iff in Hsep' as [Hpct Hsep'].
  apply orb_false_iff in Hsep' as [Hcolon _].
  rewrite interpolate_count; [| exact Hc | intros ->; discriminate
                              | intros ->; discriminate | exact Hkeys].
  rewrite query_string_truthy.
  destruct (bool_decide (query_pairs q = [])); cbn [negb].
  - rewrite andb_false_r. cbn [count_char]. lia.
  - rewrite andb_true_r, count_char_app. cbn [count_char].
    rewrite (count_char_absent c _ Hqs). destruct (Ascii.eqb c "?"); lia.
Qed.

Lemma ts_url_reserved_count_witness :
  let ps := [("opportunity", "a/b?c#d")] in
  let q := [("expand", Js.PStr "x?y#z/w")] in
  Js.uri_unreserved "?" = false
  ∧ ∃ r, the_request (Ts.createEndpoint (answer (res_ok Js.JNull))
                        retrieveOpportunity "key"
                        {| params := Some ps; query := Some q; body := None |}
                        no_init tt)
         = Some r
       ∧ count_char "?" (fc_url r)
         = (count_char "?" ROOT + count_char "?" (path retrieveOpportunity)
            + (if Ascii.eqb "?" "?" && negb (bool_decide (query_pairs q = []))
               then 1 else 0))%nat.
Proof.
  cbv zeta. split; [reflexivity|].
  apply (ts_url_reserved_count unit (answer (res_ok Js.JNull)) retrieveOpportunity
           "key" [("opportunity", "a/b?c#d")] [("expand", Js.PStr "x?y#z/w")]
           None no_init tt "?").
  - reflexivity.
  - reflexivity.
  - intros k Hk. cbn in Hk. apply elem_of_cons in Hk as [->|Hk]; [reflexivity|].
    apply elem_of_nil in Hk as [].
Defined.

(** ** JSON texts read back *)


Lemma read_chars_quote rest : read_chars (String Js.dquote rest) = Some ("", rest).
Proof. reflexivity. Qed.





























(** ** The body that is sent *)



(** ** The query string that is sent *)






(** ** The request of the second build, for a payload that has [params] *)

(** For a payload whose [params] property holds an object, whatever else
    the payload has or lacks, and with safe integers for the numbers of
    the query and of the body, the second build calls [fetch] exactly
    once and leaves the descriptor as it was.  A [query] that is missing
    (or [undefined]) counts as empty and adds no [?] to the URL; the
    method is the descriptor's unless the override names one; the headers
    are the headers object of the override when it has a [headers]
    property holding one, and the defaults when it has no [headers]
    property; the body is the override's, else none for GET or for a
    payload with no body, else [JSON.stringify(data.body)]; the other
    options of the override are passed as they are. *)
Theorem build2_request_with_params W (fetch : Fetch W) cfg apiKey ps qo bo init
    (w : W)
    (Hquery : ∀ q k n, qo = Some q → (k, Js.PNum n) ∈ q → safe_integer n = true)
    (Hbody : ∀ j, bo = Some j → json_safe j = true) :
  let r := Build2.createEndpoint fetch cfg apiKey
             {| params := Some ps; query := qo; body := bo |} init w in
  ∃ c, sent r.1 = [c]
     ∧ config r.1 = cfg
     ∧ fc_url c
       = ROOT +:+ interpolate (path cfg) ps
           +:+ (if bool_decide (query_pairs (default [] qo) = [])
                then ""
                else "?" +:+ query_string (default [] qo))
     ∧ (qo = None → fc_url c = ROOT +:+ interpolate (path cfg) ps)
     ∧ ri_method (fc_init c)
       = Some (default (method_name (method cfg)) (ri_method init))
     ∧ (∀ h, ri_headers init = Some h → req_headers c = h)
     ∧ (ri_headers init = None →
        req_headers c = default_headers (method cfg) apiKey)
     ∧ req_body c
       = override (ri_body init)
           (if decide (method cfg = GET) then None
            else Js.JSON_stringify <$> bo)
     ∧ ri_other (fc_init c) = ri_other init.
Proof.
  cbv zeta. rewrite build2_env. cbv zeta. cbn [sent config params query body].
  eexists. split; [reflexivity|]. split; [reflexivity|].
  cbn [fc_url fc_init].
  assert (Hm : default ∅ (override (ri_headers init)
                  (Some (merged_headers (method cfg) apiKey init)))
               = match ri_headers init with
                 | Some h => h
                 | None => default_headers (method cfg) apiKey
                 end).
  { unfold merged_headers. destruct (ri_headers init); cbn [override default];
      [reflexivity | rewrite (left_id_L ∅ (∪)); reflexivity]. }
  repeat apply conj.
  - unfold full_url. rewrite query_string_truthy.
    destruct (bool_decide _); reflexivity.
  - intros ->. unfold full_url.
    change (truthy (query_string (default [] None))) with false. cbn iota.
    rewrite str_app_empty_r. reflexivity.
  - destruct (decide (method cfg = GET)); [|destruct bo];
      cbn [spread ri_method no_init override];
      destruct (ri_method init); reflexivity.
  - intros h Hinit. unfold req_headers. cbn [fc_init].
    destruct (decide (method cfg = GET)); [|destruct bo];
      cbn [spread ri_headers no_init override]; rewrite Hm, Hinit; reflexivity.
  - intros Hinit. unfold req_headers. cbn [fc_init].
    destruct (decide (method cfg = GET)); [|destruct bo];
      cbn [spread ri_headers no_init override]; rewrite Hm, Hinit; reflexivity.
  - unfold req_body. cbn [fc_init].
    destruct (decide (method cfg = GET)); [|destruct bo];
      cbn [spread ri_body no_init override fmap option_fmap option_map];
      destruct (ri_body init); reflexivity.
  - destruct (decide (method cfg = GET)); [|destruct bo];
      cbn [spread ri_other no_init]; apply spread_other_empty.
Qed.

Lemma build2_request_with_params_witness :
  let r := Build2.createEndpoint (answer (res_ok Js.JNull)) addOpportunityTags
             "key"
             {| params := Some [("opportunity", "op1")]; query := None;
                body := Some tags_ab |} no_init tt in
  json_safe tags_ab = true
  ∧ ∃ c, sent r.1 = [c]
       ∧ fc_url c = "https://api.lever.co/v1/opportunities/op1/addTags"
       ∧ ri_method (fc_init c) = Some "POST"
       ∧ req_headers c = default_headers POST "key"
       ∧ req_body c = Some (Js.dq "{'tags':['a','b']}").
Proof.
  cbv zeta. split; [reflexivity|].
  destruct (build2_request_with_params unit (answer (res_ok Js.JNull))
              addOpportunityTags "key" [("opportunity", "op1")] None
              (Some tags_ab) no_init tt
              ltac:(discriminate)
              ltac:(intros j [= <-]; reflexivity))
    as (c & Hsent & _ & _ & Hurl & Hmeth & _ & Hhead & Hbody & _).
  exists c. split; [exact Hsent|]. split; [exact (Hurl eq_refl)|].
  split; [exact Hmeth|]. split; [exact (Hhead eq_refl) | exact Hbody].
Defined.
